(** * Room state machine of the trivia game

    A shallow embedding of the multiplayer room logic of the trivia
    application: the room document kept in the document store, the
    per-client React state that the event handlers read, the handlers
    themselves, and the store operations they issue.

    The repository holds three copies of the application:
      - [AppFirst]  : src/src/App.jsx, lines 1-595;
      - [AppSecond] : src/src/App.jsx, lines 596-1386;
      - [Part000]   : src/unnamed/part_000.
    Handlers whose text differs between the copies are embedded once per
    copy, inside the module of that copy.  The lobby handlers
    ([handleStartGame], [handleLeaveRoom]) have the same text in both copies
    of App.jsx and are absent from part_000; they are embedded once. *)

From stdpp Require Import gmap strings list fin_maps sorting.
From Stdlib Require Import ZArith.

Open Scope string_scope.
Open Scope Z_scope.

(** ** Data model *)

(** A value held in a field of a question object.  A question is a plain
    JS object; reading a property that the object does not have yields
    [undefined]. *)
Inductive JsVal :=
  | JUndefined
  | JStr (s : string)
  | JList (l : list string).

#[global] Instance JsVal_eq_dec : EqDecision JsVal.
Proof. solve_decision. Defined.

(** A question object: field name to value. *)
Abbreviation Question := (gmap string JsVal).

(** [o.k] *)
Definition prop (o : Question) (k : string) : JsVal :=
  default JUndefined (o !! k).

(** [answer === v] for a string [answer]. *)
Definition strictEqStr (answer : string) (v : JsVal) : bool :=
  match v with
  | JStr s => bool_decide (answer = s)
  | _ => false
  end.

(** [{ uid, name, score }] *)
Record Player := mkPlayer {
  uid : string;
  name : string;
  score : Z
}.

#[global] Instance Player_eq_dec : EqDecision Player.
Proof. solve_decision. Defined.

(** [gameState]: the only values the code writes or tests. *)
Inductive GameState := waiting | playing | finished.

#[global] Instance GameState_eq_dec : EqDecision GameState.
Proof. solve_decision. Defined.

(** [gameSettings].  The second copy of App.jsx keeps one [category]
    string instead of the list; only [amount] is read by the handlers
    embedded here. *)
Record GameSettings := mkSettings {
  amount : nat;
  categories : list string;
  difficulty : string
}.

(** The room document, with the fields [handleCreateRoom] writes. *)
Record Room := mkRoom {
  hostId : string;
  players : list Player;
  questions : list Question;
  gameSettings : GameSettings;
  currentQuestionIndex : nat;
  gameState : GameState;
  createdAt : nat;
  answers : gmap string string
}.

Definition set_hostId (h : string) (r : Room) : Room :=
  mkRoom h (players r) (questions r) (gameSettings r)
         (currentQuestionIndex r) (gameState r) (createdAt r) (answers r).

Definition set_players (ps : list Player) (r : Room) : Room :=
  mkRoom (hostId r) ps (questions r) (gameSettings r)
         (currentQuestionIndex r) (gameState r) (createdAt r) (answers r).

Definition set_currentQuestionIndex (n : nat) (r : Room) : Room :=
  mkRoom (hostId r) (players r) (questions r) (gameSettings r)
         n (gameState r) (createdAt r) (answers r).

Definition set_gameState (g : GameState) (r : Room) : Room :=
  mkRoom (hostId r) (players r) (questions r) (gameSettings r)
         (currentQuestionIndex r) g (createdAt r) (answers r).

Definition set_answers (m : gmap string string) (r : Room) : Room :=
  mkRoom (hostId r) (players r) (questions r) (gameSettings r)
         (currentQuestionIndex r) (gameState r) (createdAt r) m.

(** Ids of the players of a roster, in list order. *)
Definition uids (ps : list Player) : list string := uid <$> ps.

(** Score of the first roster entry with the given id. *)
Definition scoreOf (u : string) (ps : list Player) : option Z :=
  score <$> List.find (fun p => bool_decide (uid p = u)) ps.

(** [{ ...p, score: p.score + 1 }] *)
Definition bump (p : Player) : Player :=
  mkPlayer (uid p) (name p) (score p + 1).

(** ** The document store

    One document, addressed by the room code.  [None] is "no such
    document".  An update payload is a list of field writes; the payloads
    built by the handlers never name a field twice. *)

Inductive FieldWrite :=
  | W_hostId (h : string)
  | W_players (ps : list Player)
  | W_players_arrayUnion (p : Player)
  | W_currentQuestionIndex (n : nat)
  | W_gameState (g : GameState)
  | W_answers (m : gmap string string)
  | W_answers_at (u a : string).

(** [arrayUnion(p)]: append unless an equal element is present. *)
Definition arrayUnion (p : Player) (ps : list Player) : list Player :=
  if bool_decide (p ∈ ps) then ps else (ps ++ [p])%list.

Definition applyField (r : Room) (w : FieldWrite) : Room :=
  match w with
  | W_hostId h => set_hostId h r
  | W_players ps => set_players ps r
  | W_players_arrayUnion p => set_players (arrayUnion p (players r)) r
  | W_currentQuestionIndex n => set_currentQuestionIndex n r
  | W_gameState g => set_gameState g r
  | W_answers m => set_answers m r
  | W_answers_at u a => set_answers (<[u := a]> (answers r)) r
  end.

Definition applyPayload (payload : list FieldWrite) (r : Room) : Room :=
  foldl applyField r payload.

Abbreviation Doc := (option Room).

Inductive StoreOp :=
  | SetDoc (r : Room)
  | UpdateDoc (payload : list FieldWrite)
  | DeleteDoc.

(** [updateDoc] on a missing document is rejected by the store and leaves
    it missing. *)
Definition exec (d : Doc) (op : StoreOp) : Doc :=
  match op with
  | SetDoc r => Some r
  | UpdateDoc payload => applyPayload payload <$> d
  | DeleteDoc => None
  end.

Definition run (ops : list StoreOp) (d : Doc) : Doc := foldl exec d ops.

(** What a handler did: it returned after issuing the listed store
    operations (in order), or it threw before issuing any. *)
Inductive Outcome :=
  | Returned (ops : list StoreOp)
  | Threw.

Definition issued (o : Outcome) : list StoreOp :=
  match o with
  | Returned ops => ops
  | Threw => []
  end.

(** ** Client state *)

Inductive GameMode := single | multiplayer.

(** State of the [Game] component that the handlers read. *)
Record GameView := mkGameView {
  gameData : option Room;
  selectedAnswer : option string;
  isAnswered : bool
}.

(** [useState(null)], [useState(null)], [useState(false)] *)
Definition initialGameView : GameView := mkGameView None None false.

(** State of the [Lobby] component. *)
Record LobbyView := mkLobbyView {
  room : option Room;
  isHost : bool
}.

Definition initialLobbyView : LobbyView := mkLobbyView None false.

(** [Array.prototype.findIndex]; [None] stands for [-1]. *)
Fixpoint findIndex {A} (f : A -> bool) (l : list A) : option nat :=
  match l with
  | [] => None
  | x :: l' => if f x then Some 0%nat else S <$> findIndex f l'
  end.

(** ** Lobby component (same text in both copies of App.jsx) *)

Module Lobby.

(** The [onSnapshot] callback of the lobby.  A missing document shows an
    error and leaves [room] and [isHost] as they were. *)
Definition onSnapshot (userId : string) (v : LobbyView) (d : Doc) : LobbyView :=
  match d with
  | Some data => mkLobbyView (Some data) (bool_decide (hostId data = userId))
  | None => v
  end.

(** [handleStartGame] (App.jsx 215, 980-988): one unconditional update. *)
Definition handleStartGame : Outcome :=
  Returned [UpdateDoc [W_gameState playing]].

(** The start button is rendered only under [isHost &&], once [room] is
    loaded, and is disabled while [room.players.length < 1]. *)
Definition startButtonEnabled (v : LobbyView) : bool :=
  match room v with
  | Some r => isHost v && negb (bool_decide (length (players r) < 1)%nat)
  | None => false
  end.

Definition clickStartGame (v : LobbyView) : Outcome :=
  if startButtonEnabled v then handleStartGame else Returned [].

(** [handleLeaveRoom] (App.jsx 216, 990-1007). *)
Definition handleLeaveRoom (userId : string) (v : LobbyView) : Outcome :=
  match room v with
  | None => Returned []
  | Some room =>
      let updatedPlayers := filter (fun p => uid p <> userId) (players room) in
      match updatedPlayers with
      | [] => Returned [DeleteDoc]
      | first :: _ =>
          let newHostId :=
            if isHost v && bool_decide (0 < length updatedPlayers)%nat
            then uid first else hostId room in
          Returned [UpdateDoc [W_players updatedPlayers; W_hostId newHostId]]
      end
  end.

End Lobby.

(** What an application-level handler did besides store operations: the
    text handed to [setError] / [errorHandler], and the view it switched
    to. *)
Record Effect := mkEffect {
  errorShown : option string;
  nextView : option string;
  storeOps : list StoreOp
}.

Definition noEffect : Effect := mkEffect None None [].

(** The error conditions of the specification, as the texts the code
    shows for them. *)
Definition AlreadyStarted : string := "This game has already started.".
Definition NotFound : string := "Room not found. Check the code and try again.".
Definition QuestionShortage : string :=
  "Could not fetch enough questions with these settings. Please try again.".
Definition NoQuestions : string :=
  "Could not fetch questions with these settings. Please try again.".

(** Title and text of the modal of the single-player setup. *)
Definition NotEnoughQuestions : string * string :=
  ("Not Enough Questions",
   "The API couldn't provide enough questions for your selected criteria. Please try different settings.").
Definition NoQuestionsLoaded : string * string :=
  ("Error", "Could not load questions for these settings. Please try again.").

(** The local session object of single-player mode has no [hostId],
    [gameSettings] or [createdAt]; no handler reads them in that mode, and
    they are filled with fixed values here. *)
Definition localSession (userId playerName : string) (qs : list Question) : Room :=
  mkRoom "" [mkPlayer userId playerName 0] qs (mkSettings 0 [] "") 0 playing 0 ∅.

(** The document written by [handleCreateRoom] (same fields in both
    copies). *)
Definition newRoom (userId playerName : string) (settings : GameSettings)
    (qs : list Question) (now : nat) : Room :=
  mkRoom userId [mkPlayer userId playerName 0] qs settings 0 waiting now ∅.

(** ** First copy: src/src/App.jsx, lines 1-595 *)

Module AppFirst.

(** [Game]'s [onSnapshot] callback (258-267). [if (myAnswer)] is false
    for the empty string. *)
Definition onSnapshot (userId : string) (v : GameView) (d : Doc) : GameView :=
  match d with
  | Some data =>
      let myAnswer := answers data !! userId in
      mkGameView (Some data)
        (match myAnswer with
         | Some a => if bool_decide (a = "") then selectedAnswer v else Some a
         | None => selectedAnswer v
         end)
        (bool_decide (myAnswer <> None))
  | None => v
  end.

(** [handleAnswerSelect] (295-317).  [updatedPlayers] is a shallow copy,
    so [updatedPlayers[playerIndex].score += 1] also changes the player
    object reachable from [gameData]: the local [gameData] carries the
    incremented roster from then on. *)
Definition handleAnswerSelect (gameMode : GameMode) (userId : string)
    (v : GameView) (answer : string) : GameView * Outcome :=
  if isAnswered v then (v, Returned [])
  else
    let v1 := mkGameView (gameData v) (Some answer) true in
    match gameData v with
    | None => (v1, Threw)
    | Some gd =>
        match questions gd !! currentQuestionIndex gd with
        | None => (v1, Threw)
        | Some currentQuestion =>
            let isCorrect := strictEqStr answer (prop currentQuestion "correct_answer") in
            if isCorrect then
              let playerIndex :=
                findIndex (fun p => bool_decide (uid p = userId)) (players gd) in
              let updatedPlayers :=
                match playerIndex with
                | Some i => alter bump i (players gd)
                | None => players gd
                end in
              let v2 := mkGameView (Some (set_players updatedPlayers gd))
                                   (Some answer) true in
              match gameMode with
              | multiplayer =>
                  (v2, Returned [UpdateDoc [W_players updatedPlayers;
                                            W_answers_at userId answer]])
              | single => (v2, Returned [])
              end
            else
              match gameMode with
              | multiplayer =>
                  (v1, Returned [UpdateDoc [W_answers_at userId answer]])
              | single => (v1, Returned [])
              end
        end
    end.

(** [handleNextQuestion] (319-333). *)
Definition handleNextQuestion (gameMode : GameMode) (userId : string)
    (v : GameView) : GameView * Outcome :=
  match gameData v with
  | None => (v, Threw)
  | Some gd =>
      let nextIndex := (currentQuestionIndex gd + 1)%nat in
      let isGameOver := bool_decide (length (questions gd) <= nextIndex)%nat in
      match gameMode with
      | multiplayer =>
          if bool_decide (hostId gd <> userId) then (v, Returned [])
          else
            (v, Returned [UpdateDoc
                   (if isGameOver then [W_gameState finished]
                    else [W_currentQuestionIndex nextIndex; W_answers ∅])])
      | single =>
          (mkGameView
             (Some (if isGameOver then set_gameState finished gd
                    else set_currentQuestionIndex nextIndex gd))
             None false,
           Returned [])
      end
  end.

(** [handleJoinRoom] (529-555), given the trimmed and upper-cased code
    and the document [getDoc] returned for it; [db] is initialised. *)
Definition handleJoinRoom (userId : string) (roomCode pName : string)
    (roomDoc : Doc) : Effect :=
  if bool_decide (roomCode = "") then noEffect
  else
    match roomDoc with
    | Some roomData =>
        if bool_decide (gameState roomData = playing)
        then mkEffect (Some AlreadyStarted) None []
        else
          mkEffect None (Some "lobby")
            (if negb (existsb (fun p => bool_decide (uid p = userId)) (players roomData))
             then [UpdateDoc [W_players_arrayUnion (mkPlayer userId pName 0)]]
             else [])
    | None => mkEffect (Some NotFound) None []
    end.

(** [handleCreateRoom] (183), given what [fetchQuestions(gameSettings)]
    returned and the creation time. *)
Definition handleCreateRoom (userId playerName : string)
    (settings : GameSettings) (fetched : list Question) (now : nat) : Effect :=
  if bool_decide (length fetched < amount settings)%nat
  then mkEffect (Some QuestionShortage) None []
  else mkEffect None (Some "lobby")
         [SetDoc (newRoom userId playerName settings fetched now)].

(** Single-player branch of [setupGame] (269-271): the new [gameData],
    and the modal shown instead when there is one. *)
Definition setupGame_single (userId playerName : string)
    (settings : GameSettings) (fetched : list Question) (v : GameView)
    : GameView * option (string * string) :=
  if bool_decide (length fetched < amount settings)%nat
  then (v, Some NotEnoughQuestions)
  else (mkGameView (Some (localSession userId playerName fetched))
                   (selectedAnswer v) (isAnswered v), None).

End AppFirst.

(** ** Second copy: src/src/App.jsx, lines 596-1386 *)

Module AppSecond.

(** [Game]'s [onSnapshot] callback (1075-1088). *)
Definition onSnapshot (userId : string) (v : GameView) (d : Doc) : GameView :=
  match d with
  | Some data =>
      match answers data !! userId with
      | Some myAnswer => mkGameView (Some data) (Some myAnswer) true
      | None => mkGameView (Some data) None false
      end
  | None => v
  end.

(** [handleAnswerSelect] (1109-1141). *)
Definition handleAnswerSelect (gameMode : GameMode) (userId : string)
    (v : GameView) (answer : string) : GameView * Outcome :=
  if isAnswered v then (v, Returned [])
  else
    let v1 := mkGameView (gameData v) (Some answer) true in
    match gameData v with
    | None => (v1, Threw)
    | Some gd =>
        match questions gd !! currentQuestionIndex gd with
        | None => (v1, Threw)
        | Some currentQuestion =>
            let isCorrect := strictEqStr answer (prop currentQuestion "correctAnswer") in
            match gameMode with
            | multiplayer =>
                let newAnswers := <[userId := answer]> (answers gd) in
                let payload := [W_answers newAnswers] in
                let payload :=
                  if isCorrect then
                    let updatedPlayers :=
                      (fun p => if bool_decide (uid p = userId) then bump p else p)
                        <$> players gd in
                    (payload ++ [W_players updatedPlayers])%list
                  else payload in
                (v1, Returned [UpdateDoc payload])
            | single =>
                if isCorrect then
                  match players gd with
                  | first :: _ =>
                      (mkGameView (Some (set_players [bump first] gd)) (Some answer) true,
                       Returned [])
                  | [] => (v1, Threw)
                  end
                else (v1, Returned [])
            end
        end
    end.

(** [handleNextQuestion] (1143-1168). *)
Definition handleNextQuestion (gameMode : GameMode) (userId : string)
    (v : GameView) : GameView * Outcome :=
  match gameData v with
  | None => (v, Threw)
  | Some gd =>
      match gameMode with
      | multiplayer =>
          let isHost := bool_decide (hostId gd = userId) in
          if negb isHost then (v, Returned [])
          else
            let nextIndex := (currentQuestionIndex gd + 1)%nat in
            if bool_decide (nextIndex < length (questions gd))%nat
            then (v, Returned [UpdateDoc [W_currentQuestionIndex nextIndex; W_answers ∅]])
            else (v, Returned [UpdateDoc [W_gameState finished]])
      | single =>
          let nextIndex := (currentQuestionIndex gd + 1)%nat in
          if bool_decide (nextIndex < length (questions gd))%nat
          then (mkGameView (Some (set_currentQuestionIndex nextIndex gd)) None false,
                Returned [])
          else (mkGameView (Some (set_gameState finished gd))
                           (selectedAnswer v) (isAnswered v),
                Returned [])
      end
  end.

(** [handleJoinRoom] (1327-1349). *)
Definition handleJoinRoom (userId : string) (roomCode pName : string)
    (roomDoc : Doc) : Effect :=
  if bool_decide (roomCode = "") then noEffect
  else
    match roomDoc with
    | Some roomData =>
        mkEffect None (Some "lobby")
          (if negb (existsb (fun p => bool_decide (uid p = userId)) (players roomData))
           then [UpdateDoc [W_players_arrayUnion (mkPlayer userId pName 0)]]
           else [])
    | None => mkEffect (Some NotFound) None []
    end.

(** [handleCreateRoom] (871-897). *)
Definition handleCreateRoom (userId playerName : string)
    (settings : GameSettings) (fetched : list Question) (now : nat) : Effect :=
  if bool_decide (length fetched = 0)%nat
  then mkEffect (Some NoQuestions) None []
  else mkEffect None (Some "lobby")
         [SetDoc (newRoom userId playerName settings fetched now)].

(** Single-player branch of [setupGame] (1091-1102). *)
Definition setupGame_single (userId playerName : string)
    (settings : GameSettings) (fetched : list Question) (v : GameView)
    : GameView * option (string * string) :=
  if bool_decide (length fetched = 0)%nat
  then (v, Some NoQuestionsLoaded)
  else (mkGameView (Some (localSession userId playerName fetched))
                   (selectedAnswer v) (isAnswered v), None).

End AppSecond.

(** ** Third copy: src/unnamed/part_000

    This file has no [MultiplayerMenu] and no [Lobby] ("largely the same"
    is all it says of them), so it has no [handleCreateRoom],
    [handleStartGame] or [handleLeaveRoom] of its own. *)

Module Part000.

(** [Game]'s [onSnapshot] callback (353-366): the statements of the second
    copy. *)
Definition onSnapshot (userId : string) (v : GameView) (d : Doc) : GameView :=
  match d with
  | Some data =>
      match answers data !! userId with
      | Some myAnswer => mkGameView (Some data) (Some myAnswer) true
      | None => mkGameView (Some data) None false
      end
  | None => v
  end.

(** [handleAnswerSelect] (400-420). *)
Definition handleAnswerSelect (gameMode : GameMode) (userId : string)
    (v : GameView) (answer : string) : GameView * Outcome :=
  if isAnswered v then (v, Returned [])
  else
    let v1 := mkGameView (gameData v) (Some answer) true in
    match gameData v with
    | None => (v1, Threw)
    | Some gd =>
        match questions gd !! currentQuestionIndex gd with
        | None => (v1, Threw)
        | Some currentQuestion =>
            let isCorrect := strictEqStr answer (prop currentQuestion "correctAnswer") in
            match gameMode with
            | multiplayer =>
                let newAnswers := <[userId := answer]> (answers gd) in
                let payload := [W_answers newAnswers] in
                let payload :=
                  if isCorrect then
                    (payload ++
                     [W_players ((fun p => if bool_decide (uid p = userId)
                                           then bump p else p) <$> players gd)])%list
                  else payload in
                (v1, Returned [UpdateDoc payload])
            | single =>
                if isCorrect then
                  match players gd with
                  | first :: _ =>
                      (mkGameView (Some (set_players [bump first] gd)) (Some answer) true,
                       Returned [])
                  | [] => (v1, Threw)
                  end
                else (v1, Returned [])
            end
        end
    end.

(** [handleNextQuestion] (422-440). *)
Definition handleNextQuestion (gameMode : GameMode) (userId : string)
    (v : GameView) : GameView * Outcome :=
  match gameData v with
  | None => (v, Threw)
  | Some gd =>
      let nextIndex := (currentQuestionIndex gd + 1)%nat in
      let isGameOver := bool_decide (length (questions gd) <= nextIndex)%nat in
      match gameMode with
      | multiplayer =>
          let isHost := bool_decide (hostId gd = userId) in
          if negb isHost then (v, Returned [])
          else
            (v, Returned [UpdateDoc
                   (if isGameOver then [W_gameState finished]
                    else [W_currentQuestionIndex nextIndex; W_answers ∅])])
      | single =>
          if isGameOver
          then (mkGameView (Some (set_gameState finished gd))
                           (selectedAnswer v) (isAnswered v),
                Returned [])
          else (mkGameView (Some (set_currentQuestionIndex nextIndex gd)) None false,
                Returned [])
      end
  end.

(** [handleJoinRoom] (272-295). *)
Definition handleJoinRoom (userId : string) (roomCode pName : string)
    (roomDoc : Doc) : Effect :=
  if bool_decide (roomCode = "") then noEffect
  else
    match roomDoc with
    | Some roomData =>
        mkEffect None (Some "lobby")
          (if negb (existsb (fun p => bool_decide (uid p = userId)) (players roomData))
           then [UpdateDoc [W_players_arrayUnion (mkPlayer userId pName 0)]]
           else [])
    | None => mkEffect (Some NotFound) None []
    end.

(** Single-player branch of [setupGame] (367-373). *)
Definition setupGame_single (userId playerName : string)
    (settings : GameSettings) (fetched : list Question) (v : GameView)
    : GameView * option (string * string) :=
  if bool_decide (length fetched = 0)%nat
  then (v, Some NoQuestionsLoaded)
  else (mkGameView (Some (localSession userId playerName fetched))
                   (selectedAnswer v) (isAnswered v), None).

End Part000.

(** ** Questions as [fetchQuestions] assembles them

    An item of the provider's [data.results] is itself a question object;
    each copy turns it into the object it stores.  [shuffle] is the order
    [shuffleArray] happened to produce. *)

(** [[q.correct_answer, ...q.incorrect_answers]] *)
Definition answerOptions (q : Question) : list string :=
  (match prop q "correct_answer" with JStr c => [c] | _ => [] end ++
   match prop q "incorrect_answers" with JList l => l | _ => [] end)%list.

Inductive Copy := first | second | third.

(** App.jsx 89 and part_000 56, 68: [{ ...q, answers: shuffleArray(...) }];
    App.jsx 668-675: a fresh object with renamed fields. *)
Definition formatQuestion (c : Copy) (shuffle : list string -> list string)
    (q : Question) : Question :=
  match c with
  | first | third => <["answers" := JList (shuffle (answerOptions q))]> q
  | second =>
      list_to_map
        [("question", prop q "question");
         ("correctAnswer", prop q "correct_answer");
         ("incorrectAnswers", prop q "incorrect_answers");
         ("answers", JList (shuffle (answerOptions q)));
         ("category", prop q "category");
         ("difficulty", prop q "difficulty")]
  end.

(** The field [handleAnswerSelect] compares the chosen answer with. *)
Definition readField (c : Copy) : string :=
  match c with
  | first => "correct_answer"
  | second | third => "correctAnswer"
  end.

(** What the handler takes for a correct answer. *)
Definition judgedCorrect (c : Copy) (q : Question) (answer : string) : bool :=
  strictEqStr answer (prop q (readField c)).

(** An item as the provider sends it: it names its correct answer
    [correct_answer] and has no field [correctAnswer]. *)
Definition providerItem (item : Question) (correct : string) : Prop :=
  item !! "correct_answer" = Some (JStr correct) /\ item !! "correctAnswer" = None.

(** ** The operations of the state machine

    Each operation is the handler of the chosen copy, run by a client whose
    component state was set by the snapshot of the room it acts on, followed
    by the store operations the handler issued. *)

Definition onSnapshot (c : Copy) : string -> GameView -> Doc -> GameView :=
  match c with
  | first => AppFirst.onSnapshot
  | second => AppSecond.onSnapshot
  | third => Part000.onSnapshot
  end.

Definition handleAnswerSelect (c : Copy)
    : GameMode -> string -> GameView -> string -> GameView * Outcome :=
  match c with
  | first => AppFirst.handleAnswerSelect
  | second => AppSecond.handleAnswerSelect
  | third => Part000.handleAnswerSelect
  end.

Definition handleNextQuestion (c : Copy)
    : GameMode -> string -> GameView -> GameView * Outcome :=
  match c with
  | first => AppFirst.handleNextQuestion
  | second => AppSecond.handleNextQuestion
  | third => Part000.handleNextQuestion
  end.

Definition handleJoinRoom (c : Copy) : string -> string -> string -> Doc -> Effect :=
  match c with
  | first => AppFirst.handleJoinRoom
  | second => AppSecond.handleJoinRoom
  | third => Part000.handleJoinRoom
  end.

(** The store operations a client issues for [answer] when its last
    snapshot showed [cached]. *)
Definition answerOps (c : Copy) (cached : Room) (playerId answer : string)
    : list StoreOp :=
  issued (handleAnswerSelect c multiplayer playerId
            (onSnapshot c playerId initialGameView (Some cached)) answer).2.

Definition submitAnswer (c : Copy) (r : Room) (playerId answer : string) : Doc :=
  run (answerOps c r playerId answer) (Some r).

Definition advanceQuestion (c : Copy) (r : Room) (requesterId : string) : Doc :=
  run (issued (handleNextQuestion c multiplayer requesterId
                 (onSnapshot c requesterId initialGameView (Some r))).2)
      (Some r).

Definition joinRoom (c : Copy) (d : Doc) (roomCode playerId pName : string)
    : Effect * Doc :=
  let e := handleJoinRoom c playerId roomCode pName d in
  (e, run (storeOps e) d).

Definition startGame (r : Room) (requesterId : string) : Doc :=
  run (issued (Lobby.clickStartGame
                 (Lobby.onSnapshot requesterId initialLobbyView (Some r))))
      (Some r).

Definition leaveRoom (r : Room) (playerId : string) : Doc :=
  run (issued (Lobby.handleLeaveRoom playerId
                 (Lobby.onSnapshot playerId initialLobbyView (Some r))))
      (Some r).

(** [createRoom] for the two copies that have [handleCreateRoom]. *)
Definition createRoom_first (d : Doc) (userId playerName : string)
    (settings : GameSettings) (fetched : list Question) (now : nat) : Effect * Doc :=
  let e := AppFirst.handleCreateRoom userId playerName settings fetched now in
  (e, run (storeOps e) d).

Definition createRoom_second (d : Doc) (userId playerName : string)
    (settings : GameSettings) (fetched : list Question) (now : nat) : Effect * Doc :=
  let e := AppSecond.handleCreateRoom userId playerName settings fetched now in
  (e, run (storeOps e) d).

(** [allPlayersAnswered] in multiplayer mode. *)
Definition allPlayersAnswered (r : Room) : bool :=
  bool_decide (length (players r) = size (answers r)).

(** ** Auxiliary definitions for the statements *)

(** The roster after the player's score was incremented, as each copy
    computes it: the first copy changes the entry [findIndex] returns, the
    other two map over the roster. *)
Definition awarded (c : Copy) (p : string) (ps : list Player) : list Player :=
  match c with
  | first =>
      match findIndex (fun q => bool_decide (uid q = p)) ps with
      | Some i => alter bump i ps
      | None => ps
      end
  | second | third =>
      (fun q => if bool_decide (uid q = p) then bump q else q) <$> ps
  end.

(** The room after the update. *)
Definition answered (c : Copy) (r : Room) (p a : string) (q : Question) : Room :=
  set_answers (<[p := a]> (answers r))
    (set_players (if judgedCorrect c q a then awarded c p (players r) else players r) r).

(** The host pressing "next" [n] times in a row, each time on the room the
    previous press left. *)
Fixpoint advanceTimes (c : Copy) (n : nat) (d : Doc) : Doc :=
  match n with
  | O => d
  | S n' => advanceTimes c n' (d ≫= fun r => advanceQuestion c r (hostId r))
  end.

(** The roster without the entries of the departing player. *)
Definition remaining (playerId : string) (r : Room) : list Player :=
  filter (fun q => uid q <> playerId) (players r).

(** ** Sequences of operations on a room *)

Inductive Op :=
  | OpJoin (roomCode playerId pName : string)
  | OpLeave (playerId : string)
  | OpStart (requesterId : string)
  | OpSubmit (playerId answer : string)
  | OpAdvance (requesterId : string).

Definition perform (c : Copy) (op : Op) (r : Room) : Doc :=
  match op with
  | OpJoin roomCode p pName => (joinRoom c (Some r) roomCode p pName).2
  | OpLeave p => leaveRoom r p
  | OpStart u => startGame r u
  | OpSubmit p a => submitAnswer c r p a
  | OpAdvance u => advanceQuestion c r u
  end.

Definition performAll (c : Copy) (ops : list Op) (d : Doc) : Doc :=
  foldl (fun d op => d ≫= perform c op) d ops.

(** Rooms reachable in the first copy from a [createRoom] by operations
    that each satisfy [ok] in the room they are applied to. *)
Inductive reachableWith (ok : Room -> Op -> Prop) : Room -> Prop :=
  | reach_created userId playerName settings fetched now r :
      (createRoom_first None userId playerName settings fetched now).2 = Some r ->
      reachableWith ok r
  | reach_step r op r' :
      reachableWith ok r -> ok r op -> perform first op r = Some r' ->
      reachableWith ok r'.

(** Any sequence of operations. *)
Definition reachable : Room -> Prop := reachableWith (fun _ _ => True).


(** The keys of [answers] are ids of current players. *)
Definition answersWithinRoster (r : Room) : Prop :=
  forall k, is_Some (answers r !! k) -> k ∈ uids (players r).

(** ** Several clients on one document

    Each client keeps the component state its last snapshot and its own
    handler calls left; the store holds the document.  A snapshot reaches a
    client at some later time, or not before the client acts. *)

Record Net := mkNet {
  server : Doc;
  views : gmap string GameView
}.

Inductive Event :=
  | Deliver (p : string)
  | Answer (p a : string).

Definition viewOf (n : Net) (p : string) : GameView :=
  default initialGameView (views n !! p).

Definition netStep (c : Copy) (n : Net) (e : Event) : Net :=
  match e with
  | Deliver p =>
      mkNet (server n) (<[p := onSnapshot c p (viewOf n p) (server n)]> (views n))
  | Answer p a =>
      let res := handleAnswerSelect c multiplayer p (viewOf n p) a in
      mkNet (run (issued res.2) (server n)) (<[p := res.1]> (views n))
  end.

Definition netRun (c : Copy) (es : list Event) (n : Net) : Net :=
  foldl (netStep c) n es.

(** Every listed client has received the snapshot of [r]. *)
Definition allDelivered (c : Copy) (r : Room) (ps : list string) : Net :=
  netRun c (Deliver <$> ps) (mkNet (Some r) ∅).



(** The players answering one after the other, each on the room the
    previous answer left. *)
Definition submitAll (c : Copy) (l : list (string * string)) (d : Doc) : Doc :=
  foldl (fun d pa => d ≫= fun r => submitAnswer c r pa.1 pa.2) d l.

(** Does [u] appear in [l] with an answer the handler judges correct? *)
Definition winner (c : Copy) (q : Question) (l : list (string * string))
    (u : string) : bool :=
  existsb (fun pa => bool_decide (pa.1 = u) && judgedCorrect c q pa.2) l.




(** ** Sample data *)

Definition item_paris : Question :=
  list_to_map
    [("category", JStr "Geography"); ("type", JStr "multiple");
     ("difficulty", JStr "easy");
     ("question", JStr "What is the capital of France?");
     ("correct_answer", JStr "Paris");
     ("incorrect_answers", JList ["Rome"; "Oslo"; "Bern"])].

Definition item_seven : Question :=
  list_to_map
    [("category", JStr "Mathematics"); ("type", JStr "multiple");
     ("difficulty", JStr "easy");
     ("question", JStr "How many days are in a week?");
     ("correct_answer", JStr "7");
     ("incorrect_answers", JList ["5"; "6"; "8"])].

Definition fiveItems : list Question :=
  [item_paris; item_seven; item_paris; item_seven; item_paris].

Definition fiveRequested : GameSettings := mkSettings 5 [] "".

(** Six questions, as a provider short of items returns them for a
    request of ten. *)
Definition sixItems : list Question :=
  [item_paris; item_seven; item_paris; item_seven; item_paris; item_seven].

Definition tenRequested : GameSettings := mkSettings 10 [] "".

(** The room the host "A" created with five questions assembled by the
    given copy (the shuffle leaving the order as it is). *)
Definition createdRoom (c : Copy) : Room :=
  newRoom "A" "Ann" fiveRequested (formatQuestion c id <$> fiveItems) 0.

(** The same room after "B" joined and the host started the game: two
    players in the question loop, first question, nobody has answered. *)
Definition demoRoom (c : Copy) : Room :=
  mkRoom "A" [mkPlayer "A" "Ann" 0; mkPlayer "B" "Bob" 0]
         (formatQuestion c id <$> fiveItems)
         fiveRequested 0 playing 0 ∅.

(** A game of five questions between the host "A" and "B", played to the
    end through the screens of the first copy: both answer every question,
    then the host advances. *)
Definition oneRound (a b : string) : list Op :=
  [OpSubmit "A" a; OpSubmit "B" b; OpAdvance "A"].

Definition playedOut : list Op :=
  ([OpJoin "ROOM42" "B" "Bob"; OpStart "A"] ++
   oneRound "Paris" "Rome" ++ oneRound "7" "7" ++ oneRound "Oslo" "Paris" ++
   oneRound "7" "8" ++ oneRound "Paris" "Bern")%list.

(** The room that game ends in. *)
Definition finishedRoom : Room :=
  mkRoom "A" [mkPlayer "A" "Ann" 4; mkPlayer "B" "Bob" 2]
         (formatQuestion first id <$> fiveItems)
         fiveRequested 4 finished 0 {["A" := "Paris"; "B" := "Bern"]}.

(** After the game "B" enters the lobby again by the room code and leaves
    the room there. *)
Definition playedAndLeft : list Op :=
  (playedOut ++ [OpJoin "ROOM42" "B" "Bob"; OpLeave "B"])%list.

Definition roomAfterLeave : Room :=
  mkRoom "A" [mkPlayer "A" "Ann" 4] (formatQuestion first id <$> fiveItems)
         fiveRequested 4 finished 0 {["A" := "Paris"; "B" := "Bern"]}.



(** The scenario of the specification: a room of two questions, the host
    "A" and "B" in the question loop. *)
Definition twoItems : list Question := [item_paris; item_seven].

Definition scenarioRoom (c : Copy) : Room :=
  mkRoom "A" [mkPlayer "A" "Ann" 0; mkPlayer "B" "Bob" 0]
         (formatQuestion c id <$> twoItems)
         (mkSettings 2 [] "") 0 playing 0 ∅.

(** ** Auxiliary definitions for further properties *)

(** Does [handleJoinRoom] of the copy let a player into the room? *)
Definition joinAccepted (c : Copy) (roomCode : string) (r : Room) : bool :=
  negb (bool_decide (roomCode = "")) &&
  negb (match c with
        | first => bool_decide (gameState r = playing)
        | _ => false
        end).

(** What every room on the way from [createRoom] satisfies. *)
Definition rosterInOrder (r : Room) : Prop :=
  NoDup (uids (players r)) /\ players r <> [] /\ hostId r ∈ uids (players r).

Definition questionInRange (r : Room) : Prop :=
  (amount (gameSettings r) <= length (questions r))%nat /\
  ((0 < amount (gameSettings r))%nat ->
   (currentQuestionIndex r < length (questions r))%nat).

(** ** Single-player mode *)

Definition setupGame_single (c : Copy)
    : string -> string -> GameSettings -> list Question -> GameView
      -> GameView * option (string * string) :=
  match c with
  | first => AppFirst.setupGame_single
  | second => AppSecond.setupGame_single
  | third => Part000.setupGame_single
  end.

(** One question of a single-player game: the player picks an answer, then
    presses the button below the question. *)
Definition singleTurn (c : Copy) (userId : string) (v : GameView)
    (answer : string) : GameView :=
  (handleNextQuestion c single userId
     (handleAnswerSelect c single userId v answer).1).1.

Definition singleGame (c : Copy) (userId : string) (v : GameView)
    (picked : list string) : GameView :=
  foldl (singleTurn c userId) v picked.

(** In how many positions is the picked answer the one the handler judges
    correct for the question at that position? *)
Definition correctCount (c : Copy) (qs : list Question) (picked : list string) : nat :=
  length (filter (fun qa => judgedCorrect c qa.1 qa.2 = true) (zip qs picked)).

(** In how many positions is the picked answer the given correct one? *)
Definition matches (corrects picked : list string) : nat :=
  length (filter (fun ca => ca.1 = ca.2) (zip corrects picked)).

(** ** The question provider and [fetchQuestions]

    A request is what the URL carries: the category (the empty string for
    none), the number of questions and the difficulty (the empty string
    for any).  Category ids are kept as text. *)

Record Request := mkRequest {
  reqCategory : string;
  reqAmount : nat;
  reqDifficulty : string
}.

#[global] Instance Request_eq_dec : EqDecision Request.
Proof. solve_decision. Defined.

(** What [fetch(url)] followed by [json()] gives: a rejection, or the
    parsed answer with [response.ok], [response_code] and [results]
    ([None] when the answer has no [results]). *)
Inductive Fetched :=
  | Rejected
  | Parsed (ok : bool) (response_code : nat) (results : option (list Question)).

Definition arrived (f : Fetched) : bool :=
  match f with
  | Rejected => false
  | Parsed _ _ _ => true
  end.

(** [result.results || []] *)
Definition resultsOrEmpty (f : Fetched) : list Question :=
  match f with
  | Parsed _ _ (Some rs) => rs
  | _ => []
  end.

(** [Math.ceil(a / n)] for whole numbers [a] and [n > 0]. *)
Definition ceilDiv (a n : nat) : nat := ((a + n - 1) / n)%nat.

Module FetchFirst.

(** [fetchQuestions] of the first copy (App.jsx 67-90): the requests made,
    in order, and the questions returned.  [shuffleQ] and [shuffleA i] are
    the orders [shuffleArray] produced for the question list and for the
    answers of the question at position [i]. *)
Definition fetchQuestions (provider : Request -> Fetched)
    (shuffleQ : list Question -> list Question)
    (shuffleA : nat -> list string -> list string)
    (settings : GameSettings) : list Request * list Question :=
  let amount := amount settings in
  let categories := categories settings in
  let difficulty := difficulty settings in
  let categoryRequests :=
    if bool_decide (0 < length categories)%nat then
      let questionsPerCategory := Nat.max 1 (ceilDiv amount (length categories)) in
      (fun catId => mkRequest catId questionsPerCategory difficulty) <$> categories
    else [] in
  let results := provider <$> categoryRequests in
  let allQuestions :=
    if forallb arrived results then results ≫= resultsOrEmpty else [] in
  if bool_decide (length allQuestions < amount)%nat then
    let needed := (amount - length allQuestions)%nat in
    let request :=
      mkRequest "" (if bool_decide (0 < needed)%nat then needed else amount) difficulty in
    let allQuestions :=
      match provider request with
      | Parsed _ _ (Some rs) => (allQuestions ++ rs)%list
      | _ => allQuestions
      end in
    ((categoryRequests ++ [request])%list,
     imap (fun i q => formatQuestion first (shuffleA i) q)
          (take amount (shuffleQ allQuestions)))
  else
    (categoryRequests,
     imap (fun i q => formatQuestion first (shuffleA i) q)
          (take amount (shuffleQ allQuestions))).

End FetchFirst.

Module FetchSecond.

(** [fetchQuestions] of the second copy (App.jsx 653-680).  The provider
    may answer the [k]-th request of a session differently from the one
    before.  A refusal ([response_code !== 0]) makes the function call
    itself with [{ amount: 10 }]; [fuel] bounds the number of such calls,
    and [None] says the bound was reached. *)
Fixpoint fetchQuestions (fuel : nat) (provider : nat -> Request -> Fetched)
    (k : nat) (shuffleA : nat -> list string -> list string)
    (request : Request) : option (list Question) :=
  match fuel with
  | O => None
  | S fuel' =>
      match provider k request with
      | Rejected => Some []
      | Parsed ok response_code results =>
          if negb ok then Some []
          else if negb (bool_decide (response_code = 0%nat))
          then fetchQuestions fuel' provider (S k) shuffleA (mkRequest "" 10 "")
          else
            match results with
            | Some rs => Some (imap (fun i q => formatQuestion second (shuffleA i) q) rs)
            | None => Some []
            end
      end
  end.

(** The request built from the settings of that copy, which hold one
    category. *)
Definition requestOf (settings : GameSettings) : Request :=
  mkRequest (default "" (head (categories settings))) (amount settings)
            (difficulty settings).

End FetchSecond.

Module FetchThird.

(** [fetchQuestions] of the third copy (part_000 48-72). *)
Definition fetchQuestions (provider : Request -> Fetched)
    (shuffleQ : list Question -> list Question)
    (shuffleA : nat -> list string -> list string)
    (settings : GameSettings) : list Request * list Question :=
  let amount := amount settings in
  let categories := categories settings in
  let difficulty := difficulty settings in
  if bool_decide (length categories = 0)%nat then
    let request := mkRequest "" amount difficulty in
    ([request],
     match provider request with
     | Rejected => []
     | Parsed _ response_code results =>
         if negb (bool_decide (response_code = 0%nat)) then []
         else match results with
              | Some rs => imap (fun i q => formatQuestion third (shuffleA i) q) rs
              | None => []
              end
     end)
  else
    let questionsPerCategory := ceilDiv amount (length categories) in
    let requests :=
      (fun catId => mkRequest catId questionsPerCategory difficulty) <$> categories in
    let results := provider <$> requests in
    (requests,
     if forallb arrived results then
       let allQuestions := results ≫= resultsOrEmpty in
       let formattedQuestions :=
         imap (fun i q => formatQuestion third (shuffleA i) q) allQuestions in
       take amount (shuffleQ formattedQuestions)
     else []).

End FetchThird.







Definition refusing (k : nat) (rq : Request) : Fetched := Parsed true 5 None.


Definition twoCategories : GameSettings := mkSettings 5 ["9"; "17"] "easy".

Definition twentyRequested : GameSettings := mkSettings 20 ["9"] "hard".

(** The provider answered, and with a [response_code] other than 0. *)
Definition refused (f : Fetched) : Prop :=
  exists response_code results,
    f = Parsed true response_code results /\ response_code <> 0%nat.

(** ** The settings screen *)

(** A category of the provider, [{ id, name }], and a group of the first
    copy's settings screen, [{ id, subcategories }]. *)
Record Category := mkCategory {
  cat_id : string;
  cat_name : string
}.

Record Group := mkGroup {
  group_id : string;
  subcategories : list Category
}.

(** [handleCategoryToggle] (App.jsx 116, part_000 131-138). *)
Definition handleCategoryToggle (catId : string) (p : GameSettings) : GameSettings :=
  mkSettings (amount p)
    (if bool_decide (catId ∈ categories p)
     then filter (fun id => id <> catId) (categories p)
     else (categories p ++ [catId])%list)
    (difficulty p).

(** [handleSelectAll] (App.jsx 117). *)
Definition handleSelectAll (groupedCategories : list Group) (p : GameSettings)
    : GameSettings :=
  let allIds := groupedCategories ≫= fun g => cat_id <$> subcategories g in
  mkSettings (amount p)
    (if bool_decide (length (categories p) = length allIds) then [] else allIds)
    (difficulty p).

(** ** The final ranking *)

(** [[...players].sort((a, b) => b.score - a.score)] (App.jsx 431, 1082,
    1164, part_000 507).  The comparator is consistent, and [sort] is
    stable: the result is the one list that holds the same entries by
    falling score with entries of equal score in their former order.  It is
    computed here by insertion from the right. *)
Fixpoint insertByScore (p : Player) (l : list Player) : list Player :=
  match l with
  | [] => [p]
  | q :: l' =>
      if bool_decide (score q <= score p) then p :: q :: l'
      else q :: insertByScore p l'
  end.

Definition sortedPlayers (players : list Player) : list Player :=
  foldr insertByScore [] players.

(** ** [fetchCategories] of the first copy (App.jsx 47-65) *)

(** The character [':'] (code 58). *)
Definition colon : Ascii.ascii := Ascii.ascii_of_nat 58.

(** [name.split(':')[0]] *)
Fixpoint beforeColon (s : string) : string :=
  match s with
  | EmptyString => EmptyString
  | String a s' => if Ascii.eqb a colon then EmptyString else String a (beforeColon s')
  end.

(** [hay.includes(needle)] *)
Fixpoint includes (needle hay : string) : bool :=
  String.prefix needle hay ||
  match hay with
  | EmptyString => false
  | String _ hay' => includes needle hay'
  end.

(** The keys of [categoryMap], in the order they are written. *)
Definition groupNames : list string :=
  ["General Knowledge"; "Entertainment"; "Science"; "History"; "Geography";
   "Sports"; "Other"].

Definition categoryMap : list Group := (fun n => mkGroup n []) <$> groupNames.

(** [categoryMap[key].subcategories.push(cat)] *)
Definition pushTo (key : string) (cat : Category) (m : list Group) : list Group :=
  (fun g => if bool_decide (group_id g = key)
            then mkGroup (group_id g) (subcategories g ++ [cat]) else g) <$> m.

(** The body of the [forEach].  [inherited] tells which names a plain
    object resolves through its prototype: [categoryMap[mainName]] is then
    truthy without being a group, and [.subcategories.push] throws
    ([None]). *)
Definition place (inherited : string -> bool) (m : option (list Group))
    (cat : Category) : option (list Group) :=
  m ≫= fun m =>
    let mainName := beforeColon (cat_name cat) in
    if bool_decide (mainName ∈ groupNames) then Some (pushTo mainName cat m)
    else if inherited mainName then None
    else if includes "Science" (cat_name cat) then Some (pushTo "Science" cat m)
    else Some (pushTo "Other" cat m).

(** [fetched] is [data.trivia_categories], or [None] when the request
    failed or the answer has no such field. *)
Definition fetchCategories (inherited : string -> bool)
    (fetched : option (list Category)) : list Group :=
  match fetched with
  | None => []
  | Some cats =>
      match foldl (place inherited) (Some categoryMap) cats with
      | None => []
      | Some m => filter (fun g => (0 < length (subcategories g))%nat) m
      end
  end.

(** The group a category is put into. *)
Definition groupOf (cat : Category) : string :=
  let mainName := beforeColon (cat_name cat) in
  if bool_decide (mainName ∈ groupNames) then mainName
  else if includes "Science" (cat_name cat) then "Science"
  else "Other".

(** What the [forEach] is shown to make of a group (lemma [foldl_place]):
    it has received, in the order of the list, the categories that
    [groupOf] sends to it. *)
Definition grown (cats : list Category) (g : Group) : Group :=
  mkGroup (group_id g)
    (subcategories g ++ filter (fun cat => groupOf cat = group_id g) cats).

(** Categories as the provider names them. *)
Definition sampleCategories : list Category :=
  [mkCategory "9" "General Knowledge"; mkCategory "10" "Entertainment: Books";
   mkCategory "17" "Science & Nature"; mkCategory "18" "Science: Computers";
   mkCategory "20" "Mythology"; mkCategory "21" "Sports";
   mkCategory "11" "Entertainment: Film"].

(** * Properties *)

(** ** Rosters *)

Lemma awarded_cons_eq c p q ps :
  uid q = p ->
  awarded c p (q :: ps) = bump q :: match c with first => ps | _ => awarded c p ps end.
Proof.
  intros Hq. destruct c; simpl; rewrite bool_decide_eq_true_2 by done; done.
Qed.

Lemma awarded_cons_ne c p q ps :
  uid q <> p -> awarded c p (q :: ps) = q :: awarded c p ps.
Proof.
  intros Hq. destruct c; simpl; rewrite bool_decide_eq_false_2 by done; try done.
  destruct (findIndex _ ps); done.
Qed.

Lemma awarded_absent c p ps : p ∉ uids ps -> awarded c p ps = ps.
Proof.
  induction ps as [|q ps IH]; intros Hp.
  - by destruct c.
  - unfold uids in *. rewrite fmap_cons in Hp.
    apply not_elem_of_cons in Hp as [Hne Hp].
    rewrite awarded_cons_ne by done. by rewrite IH.
Qed.

Lemma awarded_uids c p ps : uids (awarded c p ps) = uids ps.
Proof.
  induction ps as [|q ps IH]; [by destruct c|].
  destruct (decide (uid q = p)) as [Heq|Hne].
  - rewrite awarded_cons_eq by done. unfold uids in *. rewrite fmap_cons.
    destruct c; rewrite ?IH; reflexivity.
  - rewrite awarded_cons_ne by done. unfold uids in *. rewrite !fmap_cons.
    by rewrite IH.
Qed.

Lemma awarded_length c p ps : length (awarded c p ps) = length ps.
Proof.
  rewrite <- (length_fmap uid (awarded c p ps)), <- (length_fmap uid ps).
  f_equal. apply awarded_uids.
Qed.

(** Entries of other players are left as they are, in the same order. *)
Lemma awarded_others c p ps :
  filter (fun q => uid q <> p) (awarded c p ps) = filter (fun q => uid q <> p) ps.
Proof.
  induction ps as [|q ps IH]; [by destruct c|].
  destruct (decide (uid q = p)) as [Heq|Hne].
  - rewrite awarded_cons_eq by done.
    rewrite !filter_cons. simpl.
    rewrite !decide_False by (intros H; apply H; done).
    destruct c; by rewrite ?IH.
  - rewrite awarded_cons_ne by done.
    rewrite !filter_cons, !decide_True by done. by rewrite IH.
Qed.

Lemma scoreOf_cons u q ps :
  scoreOf u (q :: ps) = if bool_decide (uid q = u) then Some (score q) else scoreOf u ps.
Proof. unfold scoreOf. simpl. by destruct (bool_decide (uid q = u)). Qed.

Lemma scoreOf_is_Some u ps : u ∈ uids ps -> is_Some (scoreOf u ps).
Proof.
  induction ps as [|q ps IH]; unfold uids; simpl.
  - intros H. by apply elem_of_nil in H.
  - intros H. rewrite scoreOf_cons. case_bool_decide as Hq; [by eexists|].
    apply elem_of_cons in H as [->|H]; [done|]. by apply IH.
Qed.

(** The score of the awarded player goes up by exactly one. *)
Lemma scoreOf_awarded_same c p ps :
  scoreOf p (awarded c p ps) = Z.succ <$> scoreOf p ps.
Proof.
  induction ps as [|q ps IH]; [by destruct c|].
  destruct (decide (uid q = p)) as [Heq|Hne].
  - rewrite awarded_cons_eq by done. rewrite !scoreOf_cons. simpl.
    by rewrite !bool_decide_eq_true_2 by done.
  - rewrite awarded_cons_ne by done. rewrite !scoreOf_cons.
    by rewrite !bool_decide_eq_false_2 by done.
Qed.

(** The score of any other player is unchanged. *)
Lemma scoreOf_awarded_other c p u ps :
  u <> p -> scoreOf u (awarded c p ps) = scoreOf u ps.
Proof.
  intros Hu. induction ps as [|q ps IH]; [by destruct c|].
  destruct (decide (uid q = p)) as [Heq|Hne].
  - rewrite awarded_cons_eq by done. rewrite !scoreOf_cons. simpl.
    rewrite !bool_decide_eq_false_2 by congruence.
    destruct c; by rewrite ?IH.
  - rewrite awarded_cons_ne by done. rewrite !scoreOf_cons. by rewrite IH.
Qed.

(** With ids unique in the roster, the three copies award alike. *)
Lemma awarded_unique c p ps :
  NoDup (uids ps) -> awarded c p ps = awarded second p ps.
Proof.
  induction ps as [|q ps IH]; intros Hnd; [by destruct c|].
  unfold uids in Hnd. rewrite fmap_cons in Hnd. apply NoDup_cons in Hnd as [Hq Hnd].
  destruct (decide (uid q = p)) as [Heq|Hne].
  - rewrite !awarded_cons_eq by done. f_equal. subst p.
    destruct c; try done. by rewrite (awarded_absent second).
  - rewrite !awarded_cons_ne by done. f_equal. by apply IH.
Qed.

(** ** Closed form of [submitAnswer] *)

Lemma answerOps_answered c r p a x :
  answers r !! p = Some x -> answerOps c r p a = [].
Proof.
  intros H. unfold answerOps.
  destruct c; simpl;
    unfold AppFirst.handleAnswerSelect, AppSecond.handleAnswerSelect,
           Part000.handleAnswerSelect; simpl; rewrite H; simpl; try done.
Qed.

Lemma answerOps_no_question c r p a :
  questions r !! currentQuestionIndex r = None -> answerOps c r p a = [].
Proof.
  intros H. unfold answerOps.
  destruct c; simpl;
    unfold AppFirst.handleAnswerSelect, AppSecond.handleAnswerSelect,
           Part000.handleAnswerSelect; simpl;
    destruct (answers r !! p); simpl; rewrite ?H; done.
Qed.

(** A player without an entry: exactly one [updateDoc], whose payload
    carries the answer and, when the answer is judged correct, the
    roster. *)
Lemma answerOps_fresh c r p a q :
  answers r !! p = None ->
  questions r !! currentQuestionIndex r = Some q ->
  answerOps c r p a =
    [UpdateDoc
       match c with
       | first =>
           if judgedCorrect c q a
           then [W_players (awarded c p (players r)); W_answers_at p a]
           else [W_answers_at p a]
       | _ =>
           W_answers (<[p := a]> (answers r)) ::
           (if judgedCorrect c q a then [W_players (awarded c p (players r))] else [])
       end].
Proof.
  intros Hp Hq. unfold answerOps, judgedCorrect.
  destruct c; simpl;
    unfold AppFirst.handleAnswerSelect, AppSecond.handleAnswerSelect,
           Part000.handleAnswerSelect; simpl; rewrite Hp; simpl; rewrite Hq;
    destruct (strictEqStr a _); done.
Qed.

Lemma submitAnswer_fresh c r p a q :
  answers r !! p = None ->
  questions r !! currentQuestionIndex r = Some q ->
  submitAnswer c r p a = Some (answered c r p a q).
Proof.
  intros Hp Hq. unfold submitAnswer. rewrite (answerOps_fresh c r p a q) by done.
  unfold answered. destruct r; destruct c; destruct (judgedCorrect _ q a); done.
Qed.

Lemma submitAnswer_answered c r p a x :
  answers r !! p = Some x -> submitAnswer c r p a = Some r.
Proof. intros H. unfold submitAnswer. by rewrite (answerOps_answered c r p a x). Qed.

Lemma submitAnswer_no_question c r p a :
  questions r !! currentQuestionIndex r = None -> submitAnswer c r p a = Some r.
Proof. intros H. unfold submitAnswer. by rewrite answerOps_no_question. Qed.


Lemma judgedCorrect_format c shuffle item correct a :
  providerItem item correct ->
  judgedCorrect c (formatQuestion c shuffle item) a =
    match c with
    | third => false
    | _ => bool_decide (a = correct)
    end.
Proof.
  intros [Hc Hn]. unfold judgedCorrect, prop.
  destruct c; simpl.
  - rewrite lookup_insert_ne by done. by rewrite Hc.
  - rewrite lookup_insert_ne by done. rewrite lookup_insert_eq. simpl.
    unfold prop. by rewrite Hc.
  - rewrite lookup_insert_ne by done. by rewrite Hn.
Qed.

(** ** C2: at most one answer per player and question *)

(** C2.  For every room and every player [p] who already has an entry in
    [answers] for the current question, a further [submitAnswer] by [p] is a
    no-op in each of the three copies: the handler issues no store
    operation, so the existing entry is not overwritten and no score is
    incremented again. *)
Theorem C2_second_answer_is_noop (c : Copy) (r : Room) (p a a' : string) :
  answers r !! p = Some a ->
  answerOps c r p a' = [] /\ submitAnswer c r p a' = Some r.
Proof.
  intros H. split.
  - by apply answerOps_answered with a.
  - by apply submitAnswer_answered with a.
Qed.

Lemma C2_second_answer_is_noop_witness :
  answerOps first (answered first (demoRoom first) "A" "Paris" ∅) "A" "Rome" = [] /\
  submitAnswer first (answered first (demoRoom first) "A" "Paris" ∅) "A" "Rome"
    = Some (answered first (demoRoom first) "A" "Paris" ∅).
Proof.
  apply (C2_second_answer_is_noop first _ "A" "Paris" "Rome").
  vm_compute. reflexivity.
Defined.

(** The same from the first answer on: answering, then answering again,
    leaves the room as the first answer left it. *)
Lemma submitAnswer_twice c r p a a' r1 :
  answers r !! p = None ->
  is_Some (questions r !! currentQuestionIndex r) ->
  submitAnswer c r p a = Some r1 ->
  submitAnswer c r1 p a' = Some r1.
Proof.
  intros Hp [q Hq] H1. rewrite (submitAnswer_fresh c r p a q) in H1 by done.
  injection H1 as <-. apply submitAnswer_answered with a.
  unfold answered. simpl. apply lookup_insert_eq.
Qed.

(** The guard is the local flag: whatever the component state, a handler
    call made while [isAnswered] is set issues nothing and changes
    nothing. *)
Lemma handleAnswerSelect_isAnswered c mode p v a :
  isAnswered v = true ->
  handleAnswerSelect c mode p v a = (v, Returned []).
Proof.
  intros H. destruct c; simpl;
    unfold AppFirst.handleAnswerSelect, AppSecond.handleAnswerSelect,
           Part000.handleAnswerSelect; by rewrite H.
Qed.

(** Every handler call that gets past the guard sets the flag. *)
Lemma handleAnswerSelect_sets_flag c mode p v a :
  isAnswered (handleAnswerSelect c mode p v a).1 = true.
Proof.
  destruct (isAnswered v) eqn:H.
  - by rewrite handleAnswerSelect_isAnswered.
  - destruct c, mode; simpl;
      unfold AppFirst.handleAnswerSelect, AppSecond.handleAnswerSelect,
             Part000.handleAnswerSelect; rewrite H;
      repeat case_match; done.
Qed.

(** ** C4: advancing *)

Lemma advanceQuestion_host c r :
  advanceQuestion c r (hostId r) =
    Some (if bool_decide (currentQuestionIndex r + 1 < length (questions r))%nat
          then set_answers ∅ (set_currentQuestionIndex (currentQuestionIndex r + 1) r)
          else set_gameState finished r).
Proof.
  unfold advanceQuestion.
  destruct c; simpl;
    unfold AppFirst.handleNextQuestion, AppSecond.handleNextQuestion,
           Part000.handleNextQuestion;
    destruct (answers r !! hostId r); simpl;
    repeat (case_bool_decide; simpl; try lia; try done).
Qed.

(** A requester who is not the host changes nothing. *)
Lemma advanceQuestion_not_host c r u :
  u <> hostId r -> advanceQuestion c r u = Some r.
Proof.
  intros Hu. unfold advanceQuestion.
  destruct c; simpl;
    unfold AppFirst.handleNextQuestion, AppSecond.handleNextQuestion,
           Part000.handleNextQuestion;
    destruct (answers r !! u); simpl;
    repeat (case_bool_decide; simpl; try lia; try done); congruence.
Qed.

(** C4.  In each copy, [advanceQuestion] by the host increments
    [currentQuestionIndex] by one and resets [answers] to the empty map
    when [currentQuestionIndex + 1 < len(questions)], every other field
    staying as it is; when the index is at the last question (or beyond) it
    sets [gameState] to [finished] instead and leaves the index alone,
    however many times the host advances. *)
Theorem C4_advanceQuestion (c : Copy) (r : Room) :
  ((currentQuestionIndex r + 1 < length (questions r))%nat ->
     advanceQuestion c r (hostId r) =
       Some (set_answers ∅ (set_currentQuestionIndex (currentQuestionIndex r + 1) r)))
  /\
  ((length (questions r) <= currentQuestionIndex r + 1)%nat ->
     advanceQuestion c r (hostId r) = Some (set_gameState finished r) /\
     forall n, advanceTimes c (S n) (Some r) = Some (set_gameState finished r)).
Proof.
  split.
  - intros H. rewrite advanceQuestion_host. by rewrite bool_decide_eq_true_2.
  - intros H.
    assert (Hstep : forall r0,
               (length (questions r0) <= currentQuestionIndex r0 + 1)%nat ->
               advanceQuestion c r0 (hostId r0) = Some (set_gameState finished r0)).
    { intros r0 H0. rewrite advanceQuestion_host.
      rewrite bool_decide_eq_false_2 by lia. done. }
    split; [by apply Hstep|].
    intros n. induction n as [|n IH].
    + simpl. by apply Hstep.
    + change (advanceTimes c (S (S n)) (Some r))
        with (advanceTimes c (S n) (advanceQuestion c r (hostId r))).
      rewrite Hstep by done.
      assert (Hfin : forall m r0,
                 (length (questions r0) <= currentQuestionIndex r0 + 1)%nat ->
                 gameState r0 = finished ->
                 advanceTimes c m (Some r0) = Some r0).
      { clear -Hstep. induction m as [|m IHm]; intros r0 Hl Hg; [done|].
        simpl. rewrite Hstep by done.
        replace (set_gameState finished r0) with r0
          by (destruct r0; simpl in *; by subst).
        by apply IHm. }
      apply Hfin; done.
Qed.

Lemma C4_advanceQuestion_witness :
  advanceQuestion first (demoRoom first) "A" =
    Some (set_answers ∅ (set_currentQuestionIndex 1 (demoRoom first))) /\
  advanceTimes first 3 (Some (set_currentQuestionIndex 4 (demoRoom first))) =
    Some (set_gameState finished (set_currentQuestionIndex 4 (demoRoom first))).
Proof.
  split.
  - apply (proj1 (C4_advanceQuestion first (demoRoom first))). vm_compute. lia.
  - apply (proj2 (C4_advanceQuestion first (set_currentQuestionIndex 4 (demoRoom first)))).
    vm_compute. lia.
Defined.

(** ** C6: leaving *)

Lemma leaveRoom_eq r p :
  leaveRoom r p =
    match remaining p r with
    | [] => None
    | next :: rest =>
        Some (set_hostId (if bool_decide (hostId r = p) then uid next else hostId r)
                (set_players (next :: rest) r))
    end.
Proof.
  unfold leaveRoom, remaining, Lobby.handleLeaveRoom. simpl.
  destruct (filter _ (players r)) as [|q rest] eqn:Hf; simpl; [done|].
  by rewrite andb_true_r.
Qed.

Lemma remaining_not_departed p r q : q ∈ remaining p r -> uid q <> p.
Proof. unfold remaining. intros H. by apply list_elem_of_filter in H as [H _]. Qed.

(** C6.  [leaveRoom] that removes the last remaining player deletes the
    room document.  When the host leaves and players remain, [hostId]
    becomes the id of the first remaining player in list order, which is
    not the departed id and is the id of a player still in the roster.
    When a player who is not the host leaves, [hostId] is unchanged.  In
    both cases the roster becomes the remaining players and nothing else
    changes. *)
Theorem C6_leaveRoom (r : Room) (p : string) :
  (remaining p r = [] -> leaveRoom r p = None)
  /\
  (forall next rest, remaining p r = next :: rest ->
     (hostId r = p ->
        leaveRoom r p = Some (set_hostId (uid next) (set_players (next :: rest) r)) /\
        uid next <> p /\
        uid next ∈ uids (next :: rest))
     /\
     (hostId r <> p ->
        leaveRoom r p = Some (set_players (next :: rest) r) /\
        (hostId r ∈ uids (players r) -> hostId r ∈ uids (next :: rest)))).
Proof.
  split.
  - intros H. by rewrite leaveRoom_eq, H.
  - intros q rest H. split.
    + intros Hh. rewrite leaveRoom_eq, H. rewrite bool_decide_eq_true_2 by done.
      split; [done|]. split.
      * apply (remaining_not_departed p r). rewrite H. apply list_elem_of_here.
      * unfold uids. rewrite fmap_cons. apply list_elem_of_here.
    + intros Hh. rewrite leaveRoom_eq, H. rewrite bool_decide_eq_false_2 by done.
      split; [by destruct r|].
      intros Hin. rewrite <- H. unfold uids, remaining in *.
      apply list_elem_of_fmap in Hin as [x [Hx Hin]].
      apply list_elem_of_fmap. exists x. split; [done|].
      apply list_elem_of_filter. split; [congruence|done].
Qed.

Lemma C6_leaveRoom_witness :
  leaveRoom (set_players [mkPlayer "A" "Ann" 0] (demoRoom first)) "A" = None /\
  leaveRoom (demoRoom first) "A" =
    Some (set_hostId "B" (set_players [mkPlayer "B" "Bob" 0] (demoRoom first))) /\
  leaveRoom (demoRoom first) "B" =
    Some (set_players [mkPlayer "A" "Ann" 0] (demoRoom first)).
Proof.
  split; [|split].
  - apply (proj1 (C6_leaveRoom _ "A")). vm_compute. reflexivity.
  - apply (proj1 (proj2 (C6_leaveRoom (demoRoom first) "A")
                    (mkPlayer "B" "Bob" 0) [] ltac:(vm_compute; reflexivity))).
    vm_compute. reflexivity.
  - apply (proj2 (proj2 (C6_leaveRoom (demoRoom first) "B")
                    (mkPlayer "A" "Ann" 0) [] ltac:(vm_compute; reflexivity))).
    vm_compute. discriminate.
Defined.

(** ** C10: what [submitAnswer] leaves alone *)

Lemma answered_frame c r p a q :
  let r' := answered c r p a q in
  gameState r' = gameState r /\ hostId r' = hostId r /\
  currentQuestionIndex r' = currentQuestionIndex r /\
  questions r' = questions r /\ gameSettings r' = gameSettings r /\
  createdAt r' = createdAt r /\
  uids (players r') = uids (players r) /\
  filter (fun x => uid x <> p) (players r') = filter (fun x => uid x <> p) (players r) /\
  (forall u, u <> p ->
     scoreOf u (players r') = scoreOf u (players r) /\
     answers r' !! u = answers r !! u).
Proof.
  simpl. unfold answered. simpl.
  destruct (judgedCorrect c q a); split_and!; try done.
  - apply awarded_uids.
  - apply awarded_others.
  - intros u Hu. split; [by apply scoreOf_awarded_other|].
    by rewrite lookup_insert_ne.
  - intros u Hu. split; [done|]. by rewrite lookup_insert_ne.
Qed.



(** ** C1: recording and scoring an answer *)

(** In the first two copies, for a room whose current question was
    assembled from a provider item: the player's answer is recorded, the
    player's score goes up by one exactly when the answer is the item's
    correct answer, and the handler issues a single [updateDoc] whose
    payload holds the answer and, for a correct answer, the roster. *)
Lemma submitAnswer_records_and_scores c r p a item shuffle correct :
  c <> third ->
  gameState r = playing ->
  p ∈ uids (players r) ->
  answers r !! p = None ->
  questions r !! currentQuestionIndex r = Some (formatQuestion c shuffle item) ->
  providerItem item correct ->
  exists payload r',
    answerOps c r p a = [UpdateDoc payload] /\
    submitAnswer c r p a = Some r' /\
    r' = applyPayload payload r /\
    answers r' = <[p := a]> (answers r) /\
    scoreOf p (players r') =
      (fun s => if bool_decide (a = correct) then s + 1 else s) <$> scoreOf p (players r).
Proof.
  intros Hc _ Hin Hp Hq Hprov.
  pose proof (answerOps_fresh c r p a _ Hp Hq) as Hops.
  pose proof (submitAnswer_fresh c r p a _ Hp Hq) as Hsub.
  eexists _, _. split; [exact Hops|]. split; [exact Hsub|].
  split.
  { unfold submitAnswer in Hsub. rewrite Hops in Hsub. simpl in Hsub.
    by injection Hsub as <-. }
  split; [done|].
  unfold answered. simpl.
  rewrite (judgedCorrect_format c shuffle item correct a) by done.
  destruct (scoreOf_is_Some p (players r) Hin) as [s Hs].
  destruct c; try done; case_bool_decide; rewrite ?scoreOf_awarded_same, Hs; simpl;
    try done; f_equal; lia.
Qed.

(** In the third copy the roster is never touched when the current question
    was assembled by that copy's [fetchQuestions]: the handler reads
    [correctAnswer], a field the assembled object does not have. *)
Lemma submitAnswer_third_never_scores r p a item shuffle correct r' :
  questions r !! currentQuestionIndex r = Some (formatQuestion third shuffle item) ->
  providerItem item correct ->
  submitAnswer third r p a = Some r' ->
  players r' = players r.
Proof.
  intros Hq Hprov H.
  destruct (answers r !! p) as [x|] eqn:Hp.
  - rewrite (submitAnswer_answered third r p a x) in H by done. by injection H as <-.
  - rewrite (submitAnswer_fresh third r p a _ Hp Hq) in H.
    assert (r' = answered third r p a (formatQuestion third shuffle item))
      as -> by congruence.
    unfold answered.
    by rewrite (judgedCorrect_format third shuffle item correct a).
Qed.

(** C1, third copy (src/unnamed/part_000), at a room in state [playing]
    whose current question was assembled by that copy from a provider item
    with [correct_answer] "Paris", and a player "A" of the roster without
    an entry in [answers]: [submitAnswer(room, "A", "Paris")] records the
    answer in one update but leaves A's score at 0, although the answer is
    the question's correct answer.  The first two copies give A the
    point on the same input. *)
Theorem C1_third_copy_correct_answer_not_scored :
  gameState (demoRoom third) = playing /\
  "A" ∈ uids (players (demoRoom third)) /\
  answers (demoRoom third) !! "A" = None /\
  questions (demoRoom third) !! currentQuestionIndex (demoRoom third)
    = Some (formatQuestion third id item_paris) /\
  providerItem item_paris "Paris" /\
  answerOps third (demoRoom third) "A" "Paris"
    = [UpdateDoc [W_answers {["A" := "Paris"]}]] /\
  submitAnswer third (demoRoom third) "A" "Paris"
    = Some (set_answers {["A" := "Paris"]} (demoRoom third)) /\
  scoreOf "A" (players (set_answers {["A" := "Paris"]} (demoRoom third))) = Some 0 /\
  (exists r1, submitAnswer first (demoRoom first) "A" "Paris" = Some r1 /\
              scoreOf "A" (players r1) = Some 1) /\
  (exists r2, submitAnswer second (demoRoom second) "A" "Paris" = Some r2 /\
              scoreOf "A" (players r2) = Some 1).
Proof.
  split_and!; try (vm_compute; reflexivity).
  - apply list_elem_of_here.
  - split; vm_compute; reflexivity.
  - eexists. split; vm_compute; reflexivity.
  - eexists. split; vm_compute; reflexivity.
Qed.

(** ** C5: joining a room that has left the lobby *)

(** What the first copy does get right: a room in state [playing] refuses
    the join with "This game has already started." and is not modified,
    whether or not the player is in the roster. *)
Lemma joinRoom_first_playing r roomCode p pName :
  roomCode <> "" ->
  gameState r = playing ->
  joinRoom first (Some r) roomCode p pName
    = (mkEffect (Some AlreadyStarted) None [], Some r).
Proof.
  intros Hc Hg. unfold joinRoom. simpl. unfold AppFirst.handleJoinRoom.
  rewrite bool_decide_eq_false_2 by done.
  by rewrite bool_decide_eq_true_2.
Qed.

(** C5 at the inputs where the code departs from it.  First copy, the
    room [finishedRoom] in state [finished]: a newcomer "C" is let in and
    appended to the roster, and "B", who played the game, is let in as
    well; no error is shown.  Second and third copy, room in state
    [playing]: the newcomer is let in and appended. *)
Theorem C5_join_after_lobby_is_accepted :
  gameState finishedRoom = finished /\
  joinRoom first (Some finishedRoom) "ROOM42" "C" "Cy"
    = (mkEffect None (Some "lobby")
         [UpdateDoc [W_players_arrayUnion (mkPlayer "C" "Cy" 0)]],
       Some (set_players [mkPlayer "A" "Ann" 4; mkPlayer "B" "Bob" 2; mkPlayer "C" "Cy" 0]
               finishedRoom)) /\
  joinRoom first (Some finishedRoom) "ROOM42" "B" "Bob"
    = (mkEffect None (Some "lobby") [], Some finishedRoom) /\
  gameState (demoRoom second) = playing /\
  joinRoom second (Some (demoRoom second)) "ROOM42" "C" "Cy"
    = (mkEffect None (Some "lobby")
         [UpdateDoc [W_players_arrayUnion (mkPlayer "C" "Cy" 0)]],
       Some (set_players [mkPlayer "A" "Ann" 0; mkPlayer "B" "Bob" 0; mkPlayer "C" "Cy" 0]
               (demoRoom second))) /\
  joinRoom third (Some (demoRoom third)) "ROOM42" "C" "Cy"
    = (mkEffect None (Some "lobby")
         [UpdateDoc [W_players_arrayUnion (mkPlayer "C" "Cy" 0)]],
       Some (set_players [mkPlayer "A" "Ann" 0; mkPlayer "B" "Bob" 0; mkPlayer "C" "Cy" 0]
               (demoRoom third))).
Proof. split_and!; vm_compute; reflexivity. Qed.

(** ** C7: too few questions *)

(** The first copy: fewer questions than requested, zero included, shows
    the shortage message and writes nothing, for a room and for a
    single-player session alike. *)
Lemma createRoom_first_shortage d userId playerName settings fetched now v :
  (length fetched < amount settings)%nat ->
  createRoom_first d userId playerName settings fetched now
    = (mkEffect (Some QuestionShortage) None [], d) /\
  AppFirst.setupGame_single userId playerName settings fetched v
    = (v, Some NotEnoughQuestions).
Proof.
  intros H. unfold createRoom_first, AppFirst.handleCreateRoom, AppFirst.setupGame_single.
  by rewrite !bool_decide_eq_true_2.
Qed.

(** All copies refuse an empty list of questions. *)
Lemma createRoom_no_questions d userId playerName settings now v :
  (0 < amount settings)%nat ->
  (createRoom_first d userId playerName settings [] now).2 = d /\
  (createRoom_second d userId playerName settings [] now)
    = (mkEffect (Some NoQuestions) None [], d) /\
  AppSecond.setupGame_single userId playerName settings [] v = (v, Some NoQuestionsLoaded) /\
  Part000.setupGame_single userId playerName settings [] v = (v, Some NoQuestionsLoaded).
Proof.
  intros H. split_and!; try done.
  unfold createRoom_first, AppFirst.handleCreateRoom.
  by rewrite bool_decide_eq_true_2.
Qed.

(** C7 at the input where the code departs from it: ten questions
    requested, six returned.  The second copy's [handleCreateRoom] shows no
    error and writes a room in state [waiting] holding the six questions;
    the single-player setup of the second and third copy starts the
    session with the six questions.  The first copy reports the shortage
    on the same input. *)
Theorem C7_second_copy_accepts_short_fetch :
  createRoom_second None "A" "Ann" tenRequested (formatQuestion second id <$> sixItems) 0
    = (mkEffect None (Some "lobby")
         [SetDoc (newRoom "A" "Ann" tenRequested (formatQuestion second id <$> sixItems) 0)],
       Some (newRoom "A" "Ann" tenRequested (formatQuestion second id <$> sixItems) 0)) /\
  length (questions (newRoom "A" "Ann" tenRequested
                       (formatQuestion second id <$> sixItems) 0)) = 6%nat /\
  AppSecond.setupGame_single "A" "Ann" tenRequested
      (formatQuestion second id <$> sixItems) initialGameView
    = (mkGameView (Some (localSession "A" "Ann" (formatQuestion second id <$> sixItems)))
         None false, None) /\
  Part000.setupGame_single "A" "Ann" tenRequested
      (formatQuestion third id <$> sixItems) initialGameView
    = (mkGameView (Some (localSession "A" "Ann" (formatQuestion third id <$> sixItems)))
         None false, None) /\
  createRoom_first None "A" "Ann" tenRequested (formatQuestion first id <$> sixItems) 0
    = (mkEffect (Some QuestionShortage) None [], None).
Proof. split_and!; vm_compute; reflexivity. Qed.

(** ** C8: the state [finished] *)

Lemma startGame_eq r u :
  startGame r u =
    Some (if bool_decide (hostId r = u) && negb (bool_decide (length (players r) < 1)%nat)
          then set_gameState playing r else r).
Proof.
  unfold startGame, Lobby.clickStartGame, Lobby.startButtonEnabled. simpl.
  by destruct (bool_decide (hostId r = u) && _).
Qed.





(** ** C9: keys of [answers] and the roster *)

Lemma reachable_performAll ok ops r r' :
  reachableWith ok r ->
  performAll first ops (Some r) = Some r' ->
  (forall r0 op, ok r0 op) ->
  reachableWith ok r'.
Proof.
  revert r. induction ops as [|op ops IH]; intros r Hr H Hok.
  - simpl in H. by injection H as <-.
  - simpl in H. destruct (perform first op r) as [r1|] eqn:H1.
    + apply (IH r1); [|done|done]. by apply reach_step with r op.
    + exfalso. clear -H. induction ops; simpl in *; [done|auto].
Qed.

(** The game of [playedOut] ends in [finishedRoom]. *)
Lemma finishedRoom_reachable : reachable finishedRoom.
Proof.
  apply (reachable_performAll _ playedOut (createdRoom first)).
  - by apply (reach_created _ "A" "Ann" fiveRequested
                (formatQuestion first id <$> fiveItems) 0%nat).
  - vm_compute. reflexivity.
  - done.
Qed.





(** ** C3: answers of several players *)




Lemma winner_absent c q l u : u ∉ l.*1 -> winner c q l u = false.
Proof.
  induction l as [|[p a] l IH]; [done|]. rewrite fmap_cons. simpl.
  intros H. apply not_elem_of_cons in H as [Hne H].
  rewrite bool_decide_eq_false_2 by congruence. simpl. by apply IH.
Qed.

(** The room after the players of [l], none of whom has an entry yet, have
    answered in turn. *)
Lemma submitAll_spec c q l : forall r,
  NoDup l.*1 ->
  (forall p, p ∈ l.*1 -> answers r !! p = None) ->
  questions r !! currentQuestionIndex r = Some q ->
  exists r',
    submitAll c l (Some r) = Some r' /\
    questions r' = questions r /\
    currentQuestionIndex r' = currentQuestionIndex r /\
    gameState r' = gameState r /\ hostId r' = hostId r /\
    uids (players r') = uids (players r) /\
    answers r' = list_to_map l ∪ answers r /\
    (forall u, scoreOf u (players r') =
               (fun s => if winner c q l u then s + 1 else s) <$> scoreOf u (players r)).
Proof.
  induction l as [|[p a] l IH]; intros r Hnd Hfresh Hq.
  - exists r. split_and!; try done.
    + simpl. by rewrite (left_id_L ∅ (∪)).
    + intros u. simpl. by destruct (scoreOf u (players r)).
  - rewrite fmap_cons in Hnd. apply NoDup_cons in Hnd as [Hp Hnd]. simpl in Hp.
    assert (Hpf : answers r !! p = None).
    { apply Hfresh. rewrite fmap_cons. apply list_elem_of_here. }
    destruct (answered_frame c r p a q) as (F1 & F2 & F3 & F4 & _ & _ & F7 & _ & F9).
    destruct (IH (answered c r p a q)) as (r' & H & G1 & G2 & G3 & G4 & G5 & G6 & G7).
    + done.
    + intros p' Hp'. unfold answered. simpl.
      rewrite lookup_insert_ne by (intros ->; done).
      apply Hfresh. rewrite fmap_cons. by apply list_elem_of_further.
    + by rewrite F3, F4.
    + exists r'. split_and!; try congruence.
      * unfold submitAll in *. simpl.
        by rewrite (submitAnswer_fresh c r p a q).
      * rewrite G6. unfold answered. simpl.
        rewrite <- insert_union_r by by apply not_elem_of_list_to_map_1.
        by rewrite insert_union_l.
      * intros u. rewrite G7.
        change (winner c q ((p, a) :: l) u)
          with (bool_decide (p = u) && judgedCorrect c q a || winner c q l u).
        destruct (decide (p = u)) as [->|Hne].
        -- rewrite (bool_decide_eq_true_2 (u = u)) by done. cbn [andb].
           rewrite (winner_absent c q l u) by done. rewrite orb_false_r.
           unfold answered. cbn [players set_answers set_players].
           destruct (judgedCorrect c q a).
           ++ rewrite scoreOf_awarded_same.
              by destruct (scoreOf u (players r)).
           ++ by destruct (scoreOf u (players r)).
        -- rewrite (bool_decide_eq_false_2 (p = u)) by done. cbn [andb orb].
           by rewrite (proj1 (F9 u (not_eq_sym Hne))).
Qed.


(** *** First copy: entries of [answers] survive any interleaving *)












(** The order in which up-to-date clients answer does not matter for the
    final [answers] map nor for any score. *)
Lemma upToDate_order_irrelevant c r l l' q r1 r2 :
  l ≡ₚ l' ->
  NoDup l.*1 ->
  (forall p, p ∈ l.*1 -> answers r !! p = None) ->
  questions r !! currentQuestionIndex r = Some q ->
  submitAll c l (Some r) = Some r1 ->
  submitAll c l' (Some r) = Some r2 ->
  answers r1 = answers r2 /\
  forall u, scoreOf u (players r1) = scoreOf u (players r2).
Proof.
  intros Hperm Hnd Hfresh Hq H1 H2.
  assert (Hnd' : NoDup l'.*1) by (by rewrite <- Hperm).
  destruct (submitAll_spec c q l r Hnd Hfresh Hq) as (x1 & E1 & _ & _ & _ & _ & _ & A1 & S1).
  destruct (submitAll_spec c q l' r Hnd') as (x2 & E2 & _ & _ & _ & _ & _ & A2 & S2).
  { intros p Hp. apply Hfresh. by rewrite Hperm. }
  { done. }
  assert (x1 = r1) as -> by congruence. assert (x2 = r2) as -> by congruence.
  split.
  - rewrite A1, A2. f_equal. by apply list_to_map_proper.
  - intros u. rewrite S1, S2.
    assert (Hw : winner c q l u = winner c q l' u).
    { apply eq_true_iff_eq. unfold winner. rewrite !existsb_exists.
      split; intros (x & Hx & Hb); exists x; (split; [|done]);
        apply list_elem_of_In; apply list_elem_of_In in Hx;
        [by rewrite <- Hperm | by rewrite Hperm]. }
    by rewrite Hw.
Qed.

(** ** The two-question scenario of the specification *)

(** First copy.  "A" answers the first question correctly and "B"
    incorrectly, both from the snapshot of the fresh room: both entries are
    recorded, A has one point, B none, and everybody has answered.  The
    host advances: second question, no answers.  Both answer it correctly,
    the host advances: the game is finished and the scores stand. *)
Lemma scenario_first_copy :
  exists r1 r2 r3 r4,
    server (netRun first [Answer "A" "Paris"; Answer "B" "Rome"]
              (allDelivered first (scenarioRoom first) ["A"; "B"])) = Some r1 /\
    answers r1 = {["A" := "Paris"; "B" := "Rome"]} /\
    scoreOf "A" (players r1) = Some 1 /\ scoreOf "B" (players r1) = Some 0 /\
    allPlayersAnswered r1 = true /\
    advanceQuestion first r1 "A" = Some r2 /\
    currentQuestionIndex r2 = 1%nat /\ answers r2 = ∅ /\
    submitAll first [("A", "7"); ("B", "7")] (Some r2) = Some r3 /\
    advanceQuestion first r3 "A" = Some r4 /\
    gameState r4 = finished /\ currentQuestionIndex r4 = 1%nat /\
    scoreOf "A" (players r4) = Some 2 /\ scoreOf "B" (players r4) = Some 1.
Proof. do 4 eexists. split_and!; vm_compute; reflexivity. Qed.

(** Second copy, same first step: B's update carries the [answers] map of
    B's snapshot with B's entry added, so A's entry is gone and not
    everybody counts as having answered. *)
Lemma scenario_second_copy_first_step :
  exists r1,
    server (netRun second [Answer "A" "Paris"; Answer "B" "Rome"]
              (allDelivered second (scenarioRoom second) ["A"; "B"])) = Some r1 /\
    answers r1 = {["B" := "Rome"]} /\
    scoreOf "A" (players r1) = Some 1 /\ scoreOf "B" (players r1) = Some 0 /\
    allPlayersAnswered r1 = false.
Proof. eexists. split_and!; vm_compute; reflexivity. Qed.

(** * Further properties of the code *)

(** ** Joining *)

Lemma existsb_uid p ps :
  existsb (fun q => bool_decide (uid q = p)) ps = bool_decide (p ∈ uids ps).
Proof.
  induction ps as [|q ps IH]; [done|].
  cbn [existsb]. rewrite IH. unfold uids. rewrite fmap_cons.
  apply eq_true_iff_eq. rewrite orb_true_iff, !bool_decide_eq_true, elem_of_cons.
  split; intros [H|H]; auto.
Qed.

Lemma arrayUnion_new p n ps :
  p ∉ uids ps -> arrayUnion (mkPlayer p n 0) ps = (ps ++ [mkPlayer p n 0])%list.
Proof.
  intros H. unfold arrayUnion. rewrite bool_decide_eq_false_2; [done|].
  intros Hin. apply H. unfold uids. apply list_elem_of_fmap.
  by exists (mkPlayer p n 0).
Qed.

(** The document after [handleJoinRoom]. *)
Lemma joinRoom_doc c r roomCode p n :
  (joinRoom c (Some r) roomCode p n).2 =
    Some (if joinAccepted c roomCode r && negb (bool_decide (p ∈ uids (players r)))
          then set_players (players r ++ [mkPlayer p n 0]) r else r).
Proof.
  unfold joinRoom, joinAccepted.
  destruct c; simpl;
    unfold AppFirst.handleJoinRoom, AppSecond.handleJoinRoom, Part000.handleJoinRoom;
    rewrite ?existsb_uid;
    repeat (case_bool_decide; simpl; try done);
    rewrite arrayUnion_new by done; done.
Qed.

(** X1.  [handleJoinRoom], all copies.  When the copy lets the player in,
    the player is in the roster afterwards; the roster before is kept as
    it is, in order, with at most one entry (score 0) appended at the end;
    host, state, index, questions and answers are unchanged; and joining
    once more with the same id, under whatever name, changes nothing.  A
    join that is not let in leaves the room as it is. *)
Theorem X1_join_adds_player_once (c : Copy) (r : Room) (roomCode p n n' : string) :
  exists r',
    (joinRoom c (Some r) roomCode p n).2 = Some r' /\
    (joinAccepted c roomCode r = true -> p ∈ uids (players r')) /\
    (joinAccepted c roomCode r = false -> r' = r) /\
    (players r' = players r \/
     ((p ∉ uids (players r)) /\ players r' = (players r ++ [mkPlayer p n 0])%list)) /\
    hostId r' = hostId r /\ gameState r' = gameState r /\
    currentQuestionIndex r' = currentQuestionIndex r /\
    questions r' = questions r /\ answers r' = answers r /\
    (joinRoom c (Some r') roomCode p n').2 = Some r'.
Proof.
  assert (Hacc : forall ps, joinAccepted c roomCode (set_players ps r)
                            = joinAccepted c roomCode r) by (by destruct c).
  exists (if joinAccepted c roomCode r && negb (bool_decide (p ∈ uids (players r)))
          then set_players (players r ++ [mkPlayer p n 0]) r else r).
  rewrite !joinRoom_doc. split; [done|].
  destruct (joinAccepted c roomCode r) eqn:Ha; cbn [andb].
  - case_bool_decide as Hin; cbn [negb andb].
    + split_and!; try done; [by left|].
      rewrite ?Ha. cbn [andb]. by rewrite bool_decide_eq_true_2.
    + assert (Hnow : p ∈ uids (players r ++ [mkPlayer p n 0])).
      { unfold uids. rewrite fmap_app. apply elem_of_app. right. apply list_elem_of_here. }
      split_and!; try done.
      * by right.
      * rewrite Hacc, ?Ha. cbn [andb players set_players].
        by rewrite (bool_decide_eq_true_2 _ Hnow).
  - split_and!; try done; [by left|]. by rewrite ?Ha.
Qed.

(** A join by a code that has no document shows "Room not found" and
    creates nothing; an empty code does nothing at all. *)
Lemma joinRoom_missing c roomCode p n :
  joinRoom c None roomCode p n =
    (if bool_decide (roomCode = "") then noEffect
     else mkEffect (Some NotFound) None [], None).
Proof.
  unfold joinRoom. destruct c; simpl;
    unfold AppFirst.handleJoinRoom, AppSecond.handleJoinRoom, Part000.handleJoinRoom;
    case_bool_decide; done.
Qed.

Lemma X1_join_adds_player_once_witness :
  exists r',
    (joinRoom first (Some (createdRoom first)) "ROOM42" "B" "Bob").2 = Some r' /\
    "B" ∈ uids (players r') /\
    (joinRoom first (Some r') "ROOM42" "B" "Bobby").2 = Some r'.
Proof.
  destruct (X1_join_adds_player_once first (createdRoom first) "ROOM42" "B" "Bob" "Bobby")
    as (r' & H & Hin & _ & _ & _ & _ & _ & _ & _ & Hagain).
  exists r'. split; [exact H|]. split; [|exact Hagain].
  apply Hin. vm_compute. reflexivity.
Defined.

(** ** What no operation changes, and what only grows *)

Lemma advanceQuestion_doc c r u :
  advanceQuestion c r u =
    Some (if bool_decide (u = hostId r)
          then if bool_decide (currentQuestionIndex r + 1 < length (questions r))%nat
               then set_answers ∅ (set_currentQuestionIndex (currentQuestionIndex r + 1) r)
               else set_gameState finished r
          else r).
Proof.
  case_bool_decide as Hu.
  - subst u. apply advanceQuestion_host.
  - by apply advanceQuestion_not_host.
Qed.

Lemma perform_frame (c : Copy) (op : Op) (r r' : Room) :
  perform c op r = Some r' ->
  questions r' = questions r /\
  gameSettings r' = gameSettings r /\
  createdAt r' = createdAt r /\
  (currentQuestionIndex r' = currentQuestionIndex r \/
   (op = OpAdvance (hostId r) /\
    currentQuestionIndex r' = S (currentQuestionIndex r) /\
    (currentQuestionIndex r' < length (questions r))%nat /\
    answers r' = ∅)).
Proof.
  intros H. destruct op as [code p n|p|u|p a|u]; cbn [perform] in H.
  - rewrite joinRoom_doc in H. injection H as <-.
    destruct (_ && _); split_and!; try done; by left.
  - rewrite leaveRoom_eq in H. destruct (remaining p r); [done|].
    injection H as <-. split_and!; try done; by left.
  - rewrite startGame_eq in H. injection H as <-.
    destruct (_ && _); split_and!; try done; by left.
  - destruct (answers r !! p) as [x|] eqn:Hp.
    { rewrite (submitAnswer_answered c r p a x) in H by done. injection H as <-.
      split_and!; try done; by left. }
    destruct (questions r !! currentQuestionIndex r) as [q|] eqn:Hq.
    + rewrite (submitAnswer_fresh c r p a q) in H by done. injection H as <-.
      split_and!; try done; by left.
    + rewrite submitAnswer_no_question in H by done. injection H as <-.
      split_and!; try done; by left.
  - rewrite advanceQuestion_doc in H. injection H as <-.
    case_bool_decide as Hu; [|split_and!; try done; by left].
    case_bool_decide as Hlt; [|split_and!; try done; by left].
    split_and!; try done. right. subst u. cbn. split_and!; try done; lia.
Qed.

(** X2.  All copies, every operation on a room that leaves a room behind
    ([joinRoom], [leaveRoom], [startGame], [submitAnswer],
    [advanceQuestion]): the questions, the settings and the creation time
    are never changed, and [currentQuestionIndex] stays or goes up by
    exactly one; it goes up only by [advanceQuestion] of the host. *)
Theorem X2_questions_fixed_index_grows (c : Copy) (op : Op) (r r' : Room) :
  perform c op r = Some r' ->
  questions r' = questions r /\
  gameSettings r' = gameSettings r /\
  createdAt r' = createdAt r /\
  (currentQuestionIndex r' = currentQuestionIndex r \/
   (op = OpAdvance (hostId r) /\
    currentQuestionIndex r' = S (currentQuestionIndex r) /\
    (currentQuestionIndex r' < length (questions r))%nat /\
    answers r' = ∅)).
Proof. apply perform_frame. Qed.

Lemma X2_questions_fixed_index_grows_witness :
  questions (set_answers ∅ (set_currentQuestionIndex 1 (demoRoom second)))
    = questions (demoRoom second).
Proof.
  apply (X2_questions_fixed_index_grows second (OpAdvance "A") (demoRoom second)).
  vm_compute. reflexivity.
Defined.

(** ** The roster and the current question on the way from [createRoom] *)

Lemma uids_filter_NoDup p ps :
  NoDup (uids ps) -> NoDup (uids (filter (fun q => uid q <> p) ps)).
Proof.
  unfold uids. induction ps as [|q ps IH]; [done|].
  rewrite fmap_cons. intros Hnd. apply NoDup_cons in Hnd as [Hq Hnd].
  rewrite filter_cons. case_decide; [|by apply IH].
  rewrite fmap_cons. apply NoDup_cons. split; [|by apply IH].
  intros Hin. apply Hq. apply list_elem_of_fmap in Hin as (x & -> & Hx).
  apply list_elem_of_fmap. exists x. split; [done|].
  by apply list_elem_of_filter in Hx as [_ Hx].
Qed.

Lemma perform_keeps_rosterInOrder c op r r' :
  perform c op r = Some r' -> rosterInOrder r -> rosterInOrder r'.
Proof.
  intros H (Hnd & Hne & Hh). destruct op as [code p n|p|u|p a|u]; cbn [perform] in H.
  - rewrite joinRoom_doc in H. injection H as <-.
    destruct (joinAccepted c code r); cbn [andb]; [|done].
    case_bool_decide as Hin; cbn [negb]; [done|].
    unfold rosterInOrder. cbn [players hostId set_players]. split_and!.
    + unfold uids in *. rewrite fmap_app. apply NoDup_app. split_and!; try done.
      * intros x Hx Hx'. apply list_elem_of_singleton in Hx'. simpl in Hx'. by subst x.
      * apply NoDup_singleton.
    + by destruct (players r).
    + unfold uids in *. rewrite fmap_app. apply elem_of_app. by left.
  - rewrite leaveRoom_eq in H. destruct (remaining p r) as [|q rest] eqn:Hrem; [done|].
    injection H as <-. unfold rosterInOrder. cbn [players hostId set_players set_hostId].
    split_and!; try done.
    + rewrite <- Hrem. by apply uids_filter_NoDup.
    + case_bool_decide as Hp.
      * unfold uids. rewrite fmap_cons. apply list_elem_of_here.
      * rewrite <- Hrem. unfold uids, remaining in *.
        apply list_elem_of_fmap in Hh as (x & Hx & Hin).
        apply list_elem_of_fmap. exists x. split; [done|].
        apply list_elem_of_filter. split; [congruence|done].
  - rewrite startGame_eq in H. injection H as <-. by destruct (_ && _).
  - destruct (answers r !! p) as [x|] eqn:Hp.
    { rewrite (submitAnswer_answered c r p a x) in H by done. by injection H as <-. }
    destruct (questions r !! currentQuestionIndex r) as [q|] eqn:Hq.
    2:{ rewrite submitAnswer_no_question in H by done. by injection H as <-. }
    rewrite (submitAnswer_fresh c r p a q) in H by done. injection H as <-.
    destruct (answered_frame c r p a q) as (_ & Fh & _ & _ & _ & _ & Fu & _).
    unfold rosterInOrder. rewrite Fu, Fh. split_and!; try done.
    intros E. apply (f_equal uids) in E. rewrite Fu in E.
    by destruct (players r).
  - rewrite advanceQuestion_doc in H. injection H as <-.
    repeat case_bool_decide; done.
Qed.

Lemma perform_keeps_questionInRange c op r r' :
  perform c op r = Some r' -> questionInRange r -> questionInRange r'.
Proof.
  intros H [Ha Hi].
  destruct (perform_frame c op r r' H) as (Hq & Hs & _ & Hidx).
  unfold questionInRange. rewrite Hq, Hs. split; [done|].
  intros Hpos. destruct Hidx as [->|(_ & _ & Hlt & _)]; [by apply Hi|done].
Qed.

(** X3.  First copy: in every room reachable from [handleCreateRoom] by
    any sequence of joins, leaves, starts, answers and advances, the roster
    is not empty and holds no id twice, and [hostId] is the id of a player
    of the roster. *)
Theorem X3_reachable_roster (r : Room) :
  reachable r -> rosterInOrder r.
Proof.
  induction 1 as [userId playerName settings fetched now r Hc | r op r' Hr IH _ Hp].
  - unfold createRoom_first, AppFirst.handleCreateRoom in Hc.
    case_bool_decide; simpl in Hc; [done|]. injection Hc as <-.
    unfold rosterInOrder, newRoom, uids. simpl. split_and!; try done.
    + apply NoDup_singleton.
    + apply list_elem_of_here.
  - by apply (perform_keeps_rosterInOrder first op r r').
Qed.

Lemma X3_reachable_roster_witness : rosterInOrder roomAfterLeave.
Proof.
  apply X3_reachable_roster.
  apply (reachable_performAll _ playedAndLeft (createdRoom first)); [| |done].
  - by apply (reach_created _ "A" "Ann" fiveRequested
                (formatQuestion first id <$> fiveItems) 0%nat).
  - vm_compute. reflexivity.
Defined.

(** X4.  First copy: every reachable room holds at least as many questions
    as its settings ask for, and, when the settings ask for at least one,
    [currentQuestionIndex] points at a question of the room: the handlers
    never find [questions[currentQuestionIndex]] undefined. *)
Theorem X4_reachable_question_exists (r : Room) :
  reachable r ->
  (amount (gameSettings r) <= length (questions r))%nat /\
  ((0 < amount (gameSettings r))%nat ->
   is_Some (questions r !! currentQuestionIndex r)).
Proof.
  intros Hr.
  assert (H : questionInRange r).
  { induction Hr as [userId playerName settings fetched now r Hc | r op r' Hr IH _ Hp].
    - unfold createRoom_first, AppFirst.handleCreateRoom in Hc.
      case_bool_decide; simpl in Hc; [done|]. injection Hc as <-.
      unfold questionInRange, newRoom. simpl. split; lia.
    - by apply (perform_keeps_questionInRange first op r r'). }
  destruct H as [Ha Hi]. split; [done|].
  intros Hpos. apply lookup_lt_is_Some. by apply Hi.
Qed.

Lemma X4_reachable_question_exists_witness :
  is_Some (questions finishedRoom !! currentQuestionIndex finishedRoom).
Proof.
  apply (X4_reachable_question_exists finishedRoom).
  - apply (reachable_performAll _ playedOut (createdRoom first)); [| |done].
    + by apply (reach_created _ "A" "Ann" fiveRequested
                  (formatQuestion first id <$> fiveItems) 0%nat).
    + vm_compute. reflexivity.
  - vm_compute. lia.
Defined.

(** ** Has everybody answered? *)

(** X5.  [allPlayersAnswered] (all copies) compares the length of the
    roster with the number of keys of [answers].  For a roster without
    double ids and an [answers] map whose keys are ids of the roster, the
    comparison is true exactly when every player of the roster has an
    entry in [answers]. *)
Theorem X5_allPlayersAnswered_exact (r : Room) :
  NoDup (uids (players r)) ->
  answersWithinRoster r ->
  (allPlayersAnswered r = true <->
   forall p, p ∈ uids (players r) -> is_Some (answers r !! p)).
Proof.
  intros Hnd Hin. unfold allPlayersAnswered. rewrite bool_decide_eq_true.
  set (U := list_to_set (uids (players r)) : gset string).
  assert (HU : size U = length (players r)).
  { unfold U. rewrite size_list_to_set by done. unfold uids. apply length_fmap. }
  assert (Hsub : dom (answers r) ⊆ U).
  { intros k Hk. apply elem_of_dom in Hk. apply elem_of_list_to_set. by apply Hin. }
  rewrite <- HU, <- size_dom. split.
  - intros Hsz p Hp.
    assert (Heq : dom (answers r) ≡ U) by (apply set_subseteq_size_equiv; [done|lia]).
    apply elem_of_dom. apply Heq. by apply elem_of_list_to_set.
  - intros Hall. apply (anti_symm le).
    + apply subseteq_size. intros k Hk. apply elem_of_list_to_set in Hk.
      apply elem_of_dom. by apply Hall.
    + by apply subseteq_size.
Qed.

Lemma X5_allPlayersAnswered_exact_witness :
  allPlayersAnswered finishedRoom = true <->
  forall p, p ∈ uids (players finishedRoom) -> is_Some (answers finishedRoom !! p).
Proof.
  apply X5_allPlayersAnswered_exact.
  - vm_compute. apply NoDup_cons. split.
    + intros H. apply list_elem_of_singleton in H. discriminate.
    + apply NoDup_singleton.
  - intros k [x Hk]. change (uids (players finishedRoom)) with ["A"; "B"].
    destruct (decide (k = "A")) as [->|Ha]; [apply list_elem_of_here|].
    destruct (decide (k = "B")) as [->|Hb]; [apply list_elem_of_further, list_elem_of_here|].
    exfalso. change (answers finishedRoom) with ({["A" := "Paris"; "B" := "Bern"]} : gmap string string) in Hk.
    rewrite lookup_insert_ne in Hk by done. by rewrite lookup_singleton_ne in Hk.
Defined.

(** With the entry of a player who left still in [answers], the
    comparison fails although the only player of the roster has
    answered. *)
Lemma allPlayersAnswered_after_leave :
  (forall p, p ∈ uids (players roomAfterLeave) -> is_Some (answers roomAfterLeave !! p)) /\
  allPlayersAnswered roomAfterLeave = false.
Proof.
  split; [|vm_compute; reflexivity].
  intros p Hp. change (uids (players roomAfterLeave)) with ["A"] in Hp.
  apply list_elem_of_singleton in Hp as ->. vm_compute. by eexists.
Qed.

(** ** Single-player mode *)

(** X6.  All copies: in single-player mode neither [handleAnswerSelect] nor
    [handleNextQuestion] issues a store operation, whatever the state of
    the component; the session lives in the component alone. *)
Theorem X6_single_player_never_writes (c : Copy) (u : string) (v : GameView) (a : string) :
  issued (handleAnswerSelect c single u v a).2 = [] /\
  issued (handleNextQuestion c single u v).2 = [].
Proof.
  split.
  - destruct c; simpl;
      unfold AppFirst.handleAnswerSelect, AppSecond.handleAnswerSelect,
             Part000.handleAnswerSelect;
      repeat case_match; done.
  - destruct c; simpl;
      unfold AppFirst.handleNextQuestion, AppSecond.handleNextQuestion,
             Part000.handleNextQuestion;
      repeat case_match; done.
Qed.

Lemma singleTurn_step c u nm h gs t m qs k s sel a q :
  qs !! k = Some q ->
  singleTurn c u (mkGameView (Some (mkRoom h [mkPlayer u nm s] qs gs k playing t m)) sel false) a
  = if bool_decide (k + 1 < length qs)%nat
    then mkGameView
           (Some (mkRoom h [mkPlayer u nm (if judgedCorrect c q a then s + 1 else s)]
                    qs gs (k + 1) playing t m)) None false
    else mkGameView
           (Some (mkRoom h [mkPlayer u nm (if judgedCorrect c q a then s + 1 else s)]
                    qs gs k finished t m))
           (match c with first => None | _ => Some a end)
           (match c with first => false | _ => true end).
Proof.
  intros Hq. unfold singleTurn, judgedCorrect.
  destruct c; simpl;
    unfold AppFirst.handleAnswerSelect, AppSecond.handleAnswerSelect,
           Part000.handleAnswerSelect,
           AppFirst.handleNextQuestion, AppSecond.handleNextQuestion,
           Part000.handleNextQuestion; simpl; rewrite Hq;
    destruct (strictEqStr a _); simpl;
    rewrite ?bool_decide_eq_true_2 by done; simpl;
    repeat (case_bool_decide; simpl; try lia; try done).
Qed.

Lemma singleGame_from c u nm h gs t m qs : forall picked k s sel,
  (length picked + k = length qs)%nat ->
  picked <> [] ->
  exists sel' fl',
    singleGame c u
      (mkGameView (Some (mkRoom h [mkPlayer u nm s] qs gs k playing t m)) sel false) picked
    = mkGameView
        (Some (mkRoom h [mkPlayer u nm (s + Z.of_nat (correctCount c (drop k qs) picked))]
                 qs gs (length qs - 1) finished t m)) sel' fl'.
Proof.
  induction picked as [|a picked IH]; intros k s sel Hlen Hne; [done|].
  simpl in Hlen.
  destruct (qs !! k) as [q|] eqn:Hq.
  2:{ apply lookup_ge_None in Hq. lia. }
  rewrite (drop_S _ q) by done.
  unfold singleGame. cbn [foldl]. rewrite (singleTurn_step c u nm h gs t m qs k s sel a q Hq).
  assert (Hcount : forall rest,
             Z.of_nat (correctCount c (q :: rest) (a :: picked))
             = (if judgedCorrect c q a then 1 else 0) + Z.of_nat (correctCount c rest picked)).
  { intros rest. unfold correctCount. cbn [zip zip_with]. rewrite filter_cons. cbn [fst snd].
    destruct (judgedCorrect c q a).
    - rewrite decide_True by done. cbn [length]. lia.
    - rewrite decide_False by done. lia. }
  assert (Hs : (if judgedCorrect c q a then s + 1 else s) +
                Z.of_nat (correctCount c (drop (S k) qs) picked)
                = s + Z.of_nat (correctCount c (q :: drop (S k) qs) (a :: picked))).
  { rewrite Hcount. destruct (judgedCorrect c q a); lia. }
  rewrite <- Hs.
  destruct picked as [|b picked].
  - rewrite bool_decide_eq_false_2 by (simpl in Hlen; lia).
    cbn [foldl].
    replace (correctCount c (drop (S k) qs) []) with 0%nat
      by (unfold correctCount; by rewrite zip_with_nil_r).
    replace (length qs - 1)%nat with k by (simpl in Hlen; lia).
    rewrite Z.add_0_r. by eexists _, _.
  - rewrite bool_decide_eq_true_2 by (simpl in Hlen; lia).
    destruct (IH (k + 1)%nat (if judgedCorrect c q a then s + 1 else s) None)
      as (sel' & fl' & E); [simpl in *; lia|done|].
    unfold singleGame in E. rewrite E.
    replace (k + 1)%nat with (S k) by lia. by eexists _, _.
Qed.

Lemma correctCount_formatted c shuffle items corrects : forall picked,
  Forall2 providerItem items corrects ->
  correctCount c (formatQuestion c shuffle <$> items) picked =
    match c with third => 0%nat | _ => matches corrects picked end.
Proof.
  intros picked H. revert picked.
  induction H as [|item correct items corrects Hp _ IH]; intros picked.
  - by destruct c.
  - destruct picked as [|a picked]; [by destruct c|].
    rewrite fmap_cons. unfold correctCount, matches in *. cbn [zip zip_with].
    rewrite !filter_cons. cbn [fst snd].
    rewrite (judgedCorrect_format c shuffle item correct a Hp).
    specialize (IH picked).
    destruct c.
    + case_bool_decide as E.
      * rewrite decide_True by done. rewrite decide_True by done.
        cbn [length]. by rewrite IH.
      * rewrite decide_False by done. rewrite decide_False by congruence. done.
    + case_bool_decide as E.
      * rewrite decide_True by done. rewrite decide_True by done.
        cbn [length]. by rewrite IH.
      * rewrite decide_False by done. rewrite decide_False by congruence. done.
    + rewrite decide_False by done. done.
Qed.

(** X7.  Single-player game, first and second copy.  The session is set up
    with questions assembled from provider items (at least as many as the
    copy insists on), the player picks one answer per question and presses
    the button after each.  The session then is [finished], the index
    stands at the last question, and the score is the number of questions
    for which the picked answer was the item's correct answer. *)
Theorem X7_single_player_score (c : Copy) (u nm : string) (settings : GameSettings)
    (shuffle : list string -> list string)
    (items : list Question) (corrects picked : list string) :
  c <> third ->
  Forall2 providerItem items corrects ->
  (amount settings <= length items)%nat ->
  items <> [] ->
  length picked = length items ->
  exists v0 sel fl,
    setupGame_single c u nm settings (formatQuestion c shuffle <$> items) initialGameView
      = (v0, None) /\
    singleGame c u v0 picked =
      mkGameView
        (Some (set_gameState finished
                 (set_currentQuestionIndex (length items - 1)
                    (set_players [mkPlayer u nm (Z.of_nat (matches corrects picked))]
                       (localSession u nm (formatQuestion c shuffle <$> items))))))
        sel fl.
Proof.
  intros Hc HF Hamt Hne Hlen.
  set (qs := formatQuestion c shuffle <$> items).
  assert (Hqs : length qs = length items) by apply length_fmap.
  exists (mkGameView (Some (localSession u nm qs)) None false).
  destruct (singleGame_from c u nm "" (mkSettings 0 [] "") 0%nat ∅ qs picked 0%nat 0 None)
    as (sel & fl & E).
  { lia. }
  { destruct picked; [|done]. destruct items; [done|simpl in Hlen; lia]. }
  exists sel, fl. split.
  - destruct c; try done; simpl;
      unfold AppFirst.setupGame_single, AppSecond.setupGame_single;
      [rewrite bool_decide_eq_false_2 by lia | rewrite bool_decide_eq_false_2]; try done.
    rewrite Hqs. destruct items; [done|simpl; lia].
  - unfold localSession. rewrite E. rewrite drop_0.
    unfold qs at 1. rewrite (correctCount_formatted c shuffle items corrects picked HF).
    cbn. rewrite Hqs. destruct c; try done.
Qed.

Lemma X7_single_player_score_witness :
  exists v0 sel fl,
    setupGame_single first "A" "Ann" fiveRequested
      (formatQuestion first id <$> fiveItems) initialGameView = (v0, None) /\
    singleGame first "A" v0 ["Paris"; "8"; "Paris"; "7"; "Rome"] =
      mkGameView
        (Some (set_gameState finished
                 (set_currentQuestionIndex 4
                    (set_players [mkPlayer "A" "Ann" 3]
                       (localSession "A" "Ann" (formatQuestion first id <$> fiveItems))))))
        sel fl.
Proof.
  apply (X7_single_player_score first "A" "Ann" fiveRequested id fiveItems
           ["Paris"; "7"; "Paris"; "7"; "Paris"] ["Paris"; "8"; "Paris"; "7"; "Rome"]).
  - discriminate.
  - repeat constructor.
  - vm_compute. lia.
  - discriminate.
  - reflexivity.
Defined.

(** ** [fetchQuestions] *)














(** X13.  [fetchQuestions], second copy.  While the provider refuses every
    request, the function keeps calling itself: no number of calls is
    enough for it to return. *)
Theorem X13_fetch_second_never_gives_up (provider : nat -> Request -> Fetched)
    (shuffleA : nat -> list string -> list string) (fuel : nat) :
  forall (k : nat) (request : Request),
  (forall j rq, (k <= j)%nat -> refused (provider j rq)) ->
  FetchSecond.fetchQuestions fuel provider k shuffleA request = None.
Proof.
  induction fuel as [|fuel IH]; intros k request H; [done|].
  destruct (H k request ltac:(lia)) as (code & results & E & Hcode).
  cbn [FetchSecond.fetchQuestions]. rewrite E. cbn [negb].
  rewrite (bool_decide_eq_false_2 _ Hcode). cbn [negb].
  apply IH. intros j rq Hj. apply H. lia.
Qed.

Lemma X13_fetch_second_never_gives_up_witness :
  FetchSecond.fetchQuestions 1000 refusing 0 (fun _ => id)
    (FetchSecond.requestOf twentyRequested) = None.
Proof.
  apply X13_fetch_second_never_gives_up.
  intros j rq _. exists 5%nat, None. split; [reflexivity|discriminate].
Defined.



(** ** The settings screen *)

(** X15.  [handleCategoryToggle]: the toggled category is selected
    afterwards exactly when it was not selected before, every other
    category stays as it was, a selection without repetition stays without
    repetition, [amount] and [difficulty] are not touched, and toggling a
    category that was not selected twice gives back the selection as it
    was. *)
Theorem X15_toggle_category (catId : string) (p : GameSettings) :
  (catId ∈ categories (handleCategoryToggle catId p) <-> catId ∉ categories p) /\
  (forall x, x <> catId ->
     (x ∈ categories (handleCategoryToggle catId p) <-> x ∈ categories p)) /\
  (NoDup (categories p) -> NoDup (categories (handleCategoryToggle catId p))) /\
  amount (handleCategoryToggle catId p) = amount p /\
  difficulty (handleCategoryToggle catId p) = difficulty p /\
  (catId ∉ categories p ->
   handleCategoryToggle catId (handleCategoryToggle catId p) = p).
Proof.
  unfold handleCategoryToggle. cbn [categories amount difficulty].
  case_bool_decide as Hin; split_and!; try done.
  - split; [|done]. intros H. by apply list_elem_of_filter in H as [H _].
  - intros x Hx. rewrite list_elem_of_filter.
    split; [by intros [_ ?]|by intros; split].
  - apply NoDup_filter.
  - split; [done|]. intros _. apply elem_of_app. right. apply list_elem_of_here.
  - intros x Hx. rewrite elem_of_app, list_elem_of_singleton.
    split; [intros [?|?]; [done|congruence]|by left].
  - intros Hnd. apply NoDup_app. split_and!; try done.
    + intros x Hx Hx'. apply list_elem_of_singleton in Hx'. by subst.
    + apply NoDup_singleton.
  - intros _. rewrite bool_decide_eq_true_2
      by (apply elem_of_app; right; apply list_elem_of_here).
    destruct p as [a cs d]. cbn [categories amount difficulty] in *. f_equal.
    rewrite filter_app. rewrite filter_cons, decide_False by (intros H; by apply H).
    rewrite filter_nil, app_nil_r.
    clear -Hin. induction cs as [|x cs IH]; [done|].
    apply not_elem_of_cons in Hin as [Hne Hin].
    rewrite filter_cons, decide_True by done. by rewrite IH.
Qed.

Lemma X15_toggle_category_witness :
  handleCategoryToggle "21" (handleCategoryToggle "21" twoCategories) = twoCategories.
Proof.
  apply (X15_toggle_category "21" twoCategories).
  intros H. apply elem_of_cons in H as [H|H]; [discriminate|].
  apply list_elem_of_singleton in H. discriminate.
Defined.

(** X16.  [handleSelectAll] decides by comparing two lengths.  When the
    ids on the screen are distinct and the selection is a selection of ids
    of the screen without repetition (what [handleCategoryToggle] and
    [handleSelectAll] keep), the comparison is exact: with every id
    selected the selection is emptied, and with some id not selected the
    selection becomes all ids of the screen. *)
Theorem X16_select_all_exact (groupedCategories : list Group) (p : GameSettings) :
  let allIds := groupedCategories ≫= fun g => cat_id <$> subcategories g in
  NoDup allIds ->
  NoDup (categories p) ->
  (forall x, x ∈ categories p -> x ∈ allIds) ->
  ((forall x, x ∈ allIds -> x ∈ categories p) ->
   categories (handleSelectAll groupedCategories p) = []) /\
  (forall x, x ∈ allIds -> x ∉ categories p ->
   categories (handleSelectAll groupedCategories p) = allIds).
Proof.
  intros allIds Hall Hnd Hsub. unfold handleSelectAll. fold allIds.
  cbn [categories]. split.
  - intros Hfull. rewrite bool_decide_eq_true_2; [done|].
    apply Permutation_length. apply NoDup_Permutation; try done.
    intros x. split; auto.
  - intros x Hx Hnx. rewrite bool_decide_eq_false_2; [done|].
    intros Hlen.
    assert (Hp : categories p ≡ₚ allIds).
    { apply submseteq_length_Permutation; [|lia].
      apply NoDup_submseteq; done. }
    apply Hnx. by rewrite Hp.
Qed.

Lemma X16_select_all_exact_witness :
  categories (handleSelectAll
                [mkGroup "Science" [mkCategory "17" "Science & Nature"];
                 mkGroup "General Knowledge" [mkCategory "9" "General Knowledge"]]
                twoCategories) = [].
Proof.
  apply (X16_select_all_exact
           [mkGroup "Science" [mkCategory "17" "Science & Nature"];
            mkGroup "General Knowledge" [mkCategory "9" "General Knowledge"]]
           twoCategories).
  - vm_compute. apply NoDup_cons. split.
    + intros H. apply list_elem_of_singleton in H. discriminate.
    + apply NoDup_singleton.
  - vm_compute. apply NoDup_cons. split.
    + intros H. apply list_elem_of_singleton in H. discriminate.
    + apply NoDup_singleton.
  - intros x Hx. vm_compute in Hx. vm_compute.
    apply elem_of_cons in Hx as [->|Hx]; [apply list_elem_of_further, list_elem_of_here|].
    apply list_elem_of_singleton in Hx as ->. apply list_elem_of_here.
  - intros x Hx. vm_compute in Hx. vm_compute.
    apply elem_of_cons in Hx as [->|Hx]; [apply list_elem_of_further, list_elem_of_here|].
    apply list_elem_of_singleton in Hx as ->. apply list_elem_of_here.
Defined.

(** ** The final ranking *)

Lemma insertByScore_Permutation p l : insertByScore p l ≡ₚ p :: l.
Proof.
  induction l as [|q l IH]; [done|]. simpl. case_bool_decide; [done|].
  rewrite IH. apply Permutation_swap.
Qed.

Lemma insertByScore_sorted p l :
  Sorted (fun a b => score b <= score a) l ->
  Sorted (fun a b => score b <= score a) (insertByScore p l).
Proof.
  induction l as [|q l IH]; intros Hs; simpl.
  - by repeat constructor.
  - case_bool_decide as Hq.
    + constructor; [done|]. by constructor.
    + apply Sorted_inv in Hs as [Hs Hhd]. constructor; [by apply IH|].
      destruct l as [|q' l]; simpl.
      * constructor. lia.
      * case_bool_decide; constructor; [lia|]. by apply HdRel_inv in Hhd.
Qed.

Lemma insertByScore_filter s p l :
  filter (fun x => score x = s) (insertByScore p l)
  = filter (fun x => score x = s) (p :: l).
Proof.
  induction l as [|q l IH]; [done|]. simpl. case_bool_decide as Hq; [done|].
  rewrite filter_cons, IH, !filter_cons.
  destruct (decide (score q = s)), (decide (score p = s)); try done. lia.
Qed.

Lemma sortedPlayers_Permutation ps : sortedPlayers ps ≡ₚ ps.
Proof.
  induction ps as [|p ps IH]; [done|]. simpl.
  by rewrite insertByScore_Permutation, IH.
Qed.

Lemma sortedPlayers_sorted ps :
  Sorted (fun a b => score b <= score a) (sortedPlayers ps).
Proof.
  induction ps as [|p ps IH]; [constructor|]. simpl.
  by apply insertByScore_sorted.
Qed.

(** X17.  The ranking shown at the end of a game holds the same players
    as the roster, by falling score, and players of equal score stay in
    the order of the roster.  In particular no other player has a higher
    score than the one ranked first. *)
Theorem X17_ranking (ps : list Player) :
  sortedPlayers ps ≡ₚ ps /\
  Sorted (fun a b => score b <= score a) (sortedPlayers ps) /\
  (forall s, filter (fun x => score x = s) (sortedPlayers ps)
             = filter (fun x => score x = s) ps) /\
  (forall top rest, sortedPlayers ps = top :: rest ->
     forall q, q ∈ ps -> score q <= score top).
Proof.
  pose proof (sortedPlayers_Permutation ps) as Hperm.
  pose proof (sortedPlayers_sorted ps) as Hsorted.
  split_and!; try done.
  - intros s. clear. induction ps as [|p ps IH]; [done|]. simpl.
    by rewrite insertByScore_filter, !filter_cons, IH.
  - intros top rest E q Hq. rewrite <- Hperm, E in Hq. rewrite E in Hsorted.
    apply elem_of_cons in Hq as [->|Hq]; [lia|].
    apply Sorted_StronglySorted in Hsorted; [|intros a b c; lia].
    apply StronglySorted_inv in Hsorted as [_ Hall].
    rewrite Forall_forall in Hall. by apply Hall.
Qed.

Lemma X17_ranking_witness :
  sortedPlayers [mkPlayer "A" "Ann" 2; mkPlayer "B" "Bob" 4; mkPlayer "C" "Cy" 4]
  ≡ₚ [mkPlayer "A" "Ann" 2; mkPlayer "B" "Bob" 4; mkPlayer "C" "Cy" 4] /\
  Sorted (fun a b => score b <= score a)
    (sortedPlayers [mkPlayer "A" "Ann" 2; mkPlayer "B" "Bob" 4; mkPlayer "C" "Cy" 4]).
Proof.
  split.
  - apply (proj1 (X17_ranking
             [mkPlayer "A" "Ann" 2; mkPlayer "B" "Bob" 4; mkPlayer "C" "Cy" 4])).
  - apply (proj1 (proj2 (X17_ranking
             [mkPlayer "A" "Ann" 2; mkPlayer "B" "Bob" 4; mkPlayer "C" "Cy" 4]))).
Defined.

(** *** [fetchCategories] *)

Lemma groupOf_known (cat : Category) : groupOf cat ∈ groupNames.
Proof.
  unfold groupOf. case_bool_decide as Hm; [done|].
  destruct (includes "Science" (cat_name cat)); unfold groupNames; set_solver.
Qed.

Lemma place_groupOf (inherited : string -> bool) (m : list Group) (cat : Category) :
  (beforeColon (cat_name cat) ∉ groupNames ->
   inherited (beforeColon (cat_name cat)) = false) ->
  place inherited (Some m) cat = Some (pushTo (groupOf cat) cat m).
Proof.
  intros Hin. unfold place, groupOf. cbn [mbind option_bind].
  case_bool_decide as Hm; [done|]. rewrite (Hin Hm).
  by destruct (includes "Science" (cat_name cat)).
Qed.

Lemma place_inherited (inherited : string -> bool) (m : list Group) (cat : Category) :
  beforeColon (cat_name cat) ∉ groupNames ->
  inherited (beforeColon (cat_name cat)) = true ->
  place inherited (Some m) cat = None.
Proof.
  intros Hm Hin. unfold place. cbn [mbind option_bind].
  rewrite bool_decide_eq_false_2 by done. by rewrite Hin.
Qed.

Lemma foldl_place_None (inherited : string -> bool) (cats : list Category) :
  foldl (place inherited) None cats = None.
Proof. induction cats as [|cat cats IH]; [done|]. exact IH. Qed.

Lemma foldl_place (inherited : string -> bool) (cats : list Category) (m : list Group) :
  (forall cat, cat ∈ cats -> beforeColon (cat_name cat) ∉ groupNames ->
               inherited (beforeColon (cat_name cat)) = false) ->
  foldl (place inherited) (Some m) cats = Some (grown cats <$> m).
Proof.
  revert m. induction cats as [|cat cats IH]; intros m Hin.
  - cbn [foldl]. f_equal. induction m as [|[i s] m IHm]; [done|].
    rewrite fmap_cons, <- IHm. unfold grown at 1. cbn.
    by rewrite ?filter_nil, app_nil_r.
  - cbn [foldl]. rewrite place_groupOf by (apply Hin; left).
    rewrite IH by (intros c Hc; apply Hin; by right). f_equal.
    unfold pushTo. rewrite <- list_fmap_compose. apply list_fmap_ext.
    intros _ [i s] _. unfold grown. cbn [compose group_id subcategories].
    rewrite filter_cons. case_bool_decide as Hk; cbn [group_id subcategories].
    + subst i. rewrite decide_True by done. by rewrite <- app_assoc.
    + rewrite decide_False by done. done.
Qed.

Lemma bind_filter_cons {A} (f : A -> string) (x : A) (l : list A) (names : list string) :
  NoDup names ->
  (names ≫= (fun n => filter (fun y => f y = n) (x :: l)))
  ≡ₚ (if bool_decide (f x ∈ names) then [x] else [])
     ++ (names ≫= (fun n => filter (fun y => f y = n) l)).
Proof.
  induction 1 as [|n names Hn Hnd IH]; [done|].
  rewrite !bind_cons, IH, filter_cons. destruct (decide (f x = n)) as [E|E].
  - subst n. rewrite (bool_decide_eq_true_2 (f x ∈ f x :: names)) by left.
    rewrite (bool_decide_eq_false_2 _ Hn). done.
  - case_bool_decide as Hx.
    + rewrite (bool_decide_eq_true_2 (f x ∈ n :: names)) by (by right).
      cbn. by rewrite Permutation_middle.
    + rewrite (bool_decide_eq_false_2 (f x ∈ n :: names)); [done|].
      intros [?|?]%elem_of_cons; done.
Qed.

Lemma bind_filter_partition {A} (f : A -> string) (l : list A) (names : list string) :
  NoDup names -> (forall x, x ∈ l -> f x ∈ names) ->
  (names ≫= (fun n => filter (fun y => f y = n) l)) ≡ₚ l.
Proof.
  intros Hnd. induction l as [|x l IH]; intros Hall.
  - clear. induction names as [|n names IHn]; [done|]. by rewrite bind_cons, IHn.
  - rewrite bind_filter_cons by done.
    rewrite bool_decide_eq_true_2 by (apply Hall; left).
    cbn. f_equiv. apply IH. intros y Hy. apply Hall. by right.
Qed.

Lemma bind_filter_nonempty (m : list Group) :
  (filter (fun g => (0 < length (subcategories g))%nat) m ≫= subcategories)
  = (m ≫= subcategories).
Proof.
  induction m as [|[i s] m IH]; [done|].
  rewrite filter_cons. cbn [subcategories]. destruct s as [|c s].
  - rewrite decide_False by (cbn; lia). by rewrite bind_cons, IH.
  - rewrite decide_True by (cbn; lia). by rewrite !bind_cons, IH.
Qed.

(** X18.  [fetchCategories] (App.jsx 47-65).  When no category's main name
    (the text before the first colon) is a name that a plain object
    inherits, the groups returned hold every fetched category exactly
    once; the group with id [n] holds, in the order they were fetched, the
    categories that [groupOf] sends to [n]; no returned group is empty;
    and the groups come in the order of [groupNames].  A category whose
    main name is inherited and not a group makes the whole result empty,
    as does a failed request. *)
Theorem X18_fetchCategories_groups (inherited : string -> bool) (cats : list Category) :
  ((forall cat, cat ∈ cats -> beforeColon (cat_name cat) ∉ groupNames ->
                inherited (beforeColon (cat_name cat)) = false) ->
   let groups := fetchCategories inherited (Some cats) in
   (groups ≫= subcategories) ≡ₚ cats /\
   (forall g, g ∈ groups ->
      subcategories g = filter (fun cat => groupOf cat = group_id g) cats /\
      subcategories g <> []) /\
   (forall cat, cat ∈ cats ->
      exists g, g ∈ groups /\ group_id g = groupOf cat /\ cat ∈ subcategories g) /\
   group_id <$> groups `sublist_of` groupNames) /\
  ((exists cat, cat ∈ cats /\ (beforeColon (cat_name cat) ∉ groupNames) /\
                inherited (beforeColon (cat_name cat)) = true) ->
   fetchCategories inherited (Some cats) = []) /\
  fetchCategories inherited None = [].
Proof.
  split_and!; [|intros (cat & Hc & Hm & Hin) | done].
  - intros Hin groups. subst groups. unfold fetchCategories.
    rewrite foldl_place by done.
    set (m := grown cats <$> categoryMap).
    assert (Hm : forall g, g ∈ m ->
              group_id g ∈ groupNames /\
              subcategories g = filter (fun cat => groupOf cat = group_id g) cats).
    { intros g (g0 & -> & Hg0)%list_elem_of_fmap.
      unfold categoryMap in Hg0. apply list_elem_of_fmap in Hg0 as (n & -> & Hn).
      by split. }
    assert (Hids : group_id <$> m = groupNames).
    { unfold m, categoryMap. rewrite <- !list_fmap_compose.
      rewrite <- (list_fmap_id groupNames) at 2. by apply list_fmap_ext. }
    assert (Hbind : (m ≫= subcategories)
                    = (groupNames ≫= (fun n => filter (fun cat => groupOf cat = n) cats))).
    { unfold m, categoryMap. rewrite <- list_fmap_compose.
      generalize groupNames. intros l. induction l as [|n l IH]; [done|].
      by rewrite fmap_cons, !bind_cons, IH. }
    split_and!.
    + rewrite bind_filter_nonempty, Hbind.
      apply bind_filter_partition;
        [apply (bool_decide_unpack (NoDup groupNames)); by vm_compute|].
      intros x _. apply groupOf_known.
    + intros g [Hlen Hg]%list_elem_of_filter. destruct (Hm g Hg) as [_ Hs].
      split; [done|]. intros E. rewrite E in Hlen. cbn in Hlen. lia.
    + intros cat Hc.
      exists (mkGroup (groupOf cat)
                (filter (fun c => groupOf c = groupOf cat) cats)).
      assert (Hsub : cat ∈ filter (fun c => groupOf c = groupOf cat) cats)
        by (by apply list_elem_of_filter).
      split_and!; [|done|done].
      apply list_elem_of_filter. split.
      * cbn. destruct (filter _ cats); [by apply elem_of_nil in Hsub|cbn; lia].
      * unfold m, categoryMap. rewrite <- list_fmap_compose.
        apply list_elem_of_fmap. exists (groupOf cat). split; [done|].
        apply groupOf_known.
    + rewrite <- Hids. apply fmap_sublist, sublist_filter.
  - unfold fetchCategories.
    apply list_elem_of_split in Hc as (l1 & l2 & ->).
    rewrite foldl_app. cbn [foldl].
    destruct (foldl (place inherited) (Some categoryMap) l1) as [m|].
    + rewrite place_inherited by done. by rewrite foldl_place_None.
    + cbn. by rewrite foldl_place_None.
Qed.

Lemma X18_fetchCategories_groups_witness :
  (fetchCategories (fun _ => false) (Some sampleCategories) ≫= subcategories)
  ≡ₚ sampleCategories.
Proof.
  apply (proj1 (proj1 (X18_fetchCategories_groups (fun _ => false) sampleCategories)
                  (fun _ _ _ => eq_refl))).
Defined.

(** X19.  Single-player game, third copy (part_000).  With questions
    assembled by that copy from provider items, whatever the player picks,
    the session ends [finished] on the last question with a score of 0:
    the handler reads [correctAnswer], which the copy's questions do not
    carry. *)
Theorem X19_third_copy_single_player_score_zero (u nm : string) (settings : GameSettings)
    (shuffle : list string -> list string)
    (items : list Question) (corrects picked : list string) :
  Forall2 providerItem items corrects ->
  items <> [] ->
  length picked = length items ->
  exists v0 sel fl,
    setupGame_single third u nm settings (formatQuestion third shuffle <$> items)
      initialGameView = (v0, None) /\
    singleGame third u v0 picked =
      mkGameView
        (Some (set_gameState finished
                 (set_currentQuestionIndex (length items - 1)
                    (set_players [mkPlayer u nm 0]
                       (localSession u nm (formatQuestion third shuffle <$> items))))))
        sel fl.
Proof.
  intros HF Hne Hlen.
  set (qs := formatQuestion third shuffle <$> items).
  assert (Hqs : length qs = length items) by apply length_fmap.
  exists (mkGameView (Some (localSession u nm qs)) None false).
  destruct (singleGame_from third u nm "" (mkSettings 0 [] "") 0%nat ∅ qs picked 0%nat 0 None)
    as (sel & fl & E).
  { lia. }
  { destruct picked; [|done]. destruct items; [done|simpl in Hlen; lia]. }
  exists sel, fl. split.
  - simpl. unfold Part000.setupGame_single.
    rewrite bool_decide_eq_false_2; [done|].
    rewrite Hqs. destruct items; [done|simpl; lia].
  - unfold localSession. rewrite E. rewrite drop_0.
    unfold qs at 1. rewrite (correctCount_formatted third shuffle items corrects picked HF).
    cbn. by rewrite Hqs.
Qed.

Lemma X19_third_copy_single_player_score_zero_witness :
  exists v0 sel fl,
    setupGame_single third "A" "Ann" fiveRequested
      (formatQuestion third id <$> fiveItems) initialGameView = (v0, None) /\
    singleGame third "A" v0 ["Paris"; "7"; "Paris"; "7"; "Paris"] =
      mkGameView
        (Some (set_gameState finished
                 (set_currentQuestionIndex 4
                    (set_players [mkPlayer "A" "Ann" 0]
                       (localSession "A" "Ann" (formatQuestion third id <$> fiveItems))))))
        sel fl.
Proof.
  apply (X19_third_copy_single_player_score_zero "A" "Ann" fiveRequested id fiveItems
           ["Paris"; "7"; "Paris"; "7"; "Paris"] ["Paris"; "7"; "Paris"; "7"; "Paris"]).
  - repeat constructor.
  - discriminate.
  - reflexivity.
Defined.
